(** * Malaria dashboard: name normalisation, join and aggregation engine

    A shallow embedding of [app3.py]: the name normaliser [clean_name], the
    inner join performed by [load_data], and the filter / aggregation
    callback [update_dashboard].

    Modelling conventions.
    - A Python [str] is a Rocq [string]; a character is its code point in
      the range 0..255.
    - A cell that pandas may hold as missing (None / NaN) is a [value] for
      text and an [option] for geometry and case counts.
    - An integer column is a column of unbounded integers; numeric results
      that pandas holds as float64 are exact rationals extended with the
      IEEE special values ([fnum]); overflow and binary rounding error are
      outside the model.
    - A Python exception is an [Err] result of the [result] monad; the
      [try ... except Exception] of the callback is [update_dashboard]. *)

From Stdlib Require Import List String Ascii Bool ZArith QArith Qround Qabs
  Lia Lqa Sorted OrderedTypeEx.
Import ListNotations.

Local Open Scope string_scope.
Local Open Scope Z_scope.

(** ** Cells *)

(** A text cell: [Null] is pandas' missing value, for which [pd.isna]
    holds. *)
Inductive value : Type :=
| Null
| Text (s : string).

(** Element-wise [==] of a pandas column against a scalar: a missing value
    on either side compares unequal. *)
Definition value_eqb (a b : value) : bool :=
  match a, b with
  | Text x, Text y => String.eqb x y
  | _, _ => false
  end.

(** ** Name normaliser *)

Module Normalizer.

(** [str.isspace] on one character, for code points below 256. *)
Definition isspace (c : ascii) : bool :=
  let n := N_of_ascii c in
  ((9 <=? n) && (n <=? 13) || (28 <=? n) && (n <=? 32)
   || (n =? 133) || (n =? 160))%N.

(** [str.lower] on one character, for code points below 256. *)
Definition lower_char (c : ascii) : ascii :=
  let n := N_of_ascii c in
  if ((65 <=? n) && (n <=? 90)
      || (192 <=? n) && (n <=? 222) && negb (n =? 215))%N
  then ascii_of_N (n + 32) else c.

Fixpoint lower (s : string) : string :=
  match s with
  | EmptyString => EmptyString
  | String c r => String (lower_char c) (lower r)
  end.

Fixpoint lstrip (s : string) : string :=
  match s with
  | EmptyString => EmptyString
  | String c r => if isspace c then lstrip r else s
  end.

(** Drops trailing white space: a character is kept when it is not white
    space or when something is kept after it. *)
Fixpoint rstrip (s : string) : string :=
  match s with
  | EmptyString => EmptyString
  | String c r =>
      match rstrip r with
      | EmptyString => if isspace c then EmptyString else String c EmptyString
      | r' => String c r'
      end
  end.

(** [str.strip()]. *)
Definition strip (s : string) : string := rstrip (lstrip s).

(** [str.split(sep)] for a one-character separator: every occurrence of
    [sep] ends a field, so the result is never empty. *)
Fixpoint split (sep : ascii) (s : string) : list string :=
  match s with
  | EmptyString => [EmptyString]
  | String c r =>
      if Ascii.eqb c sep then EmptyString :: split sep r
      else match split sep r with
           | [] => [String c EmptyString]
           | f :: fs => String c f :: fs
           end
  end.

(** [clean_name]: [""] for a missing value, otherwise
    [str(name).strip().split(' ')[0].lower()]. *)
Definition clean_name (name : value) : string :=
  match name with
  | Null => ""
  | Text s => lower (hd "" (split " " (strip s)))
  end.

(** The text before the first space character. *)
Fixpoint before_blank (s : string) : string :=
  match s with
  | EmptyString => EmptyString
  | String c r => if Ascii.eqb c " " then EmptyString else String c (before_blank r)
  end.

(** Every character is white space. *)
Fixpoint all_space (s : string) : bool :=
  match s with
  | EmptyString => true
  | String c r => isspace c && all_space r
  end.

(** The normaliser as the specification words it: strip, split on white
    space, first token, lower case. *)
Fixpoint first_token (s : string) : string :=
  match s with
  | EmptyString => EmptyString
  | String c r => if isspace c then EmptyString else String c (first_token r)
  end.

Definition normalize (name : value) : string :=
  match name with
  | Null => ""
  | Text s => lower (first_token (strip s))
  end.

(** Every white-space character of the text is the space character. *)
Fixpoint blanks_only (s : string) : bool :=
  match s with
  | EmptyString => true
  | String c r => (negb (isspace c) || Ascii.eqb c " ") && blanks_only r
  end.

Definition blanks_only_value (v : value) : bool :=
  match v with Null => true | Text s => blanks_only s end.

End Normalizer.

Import Normalizer.

(** ** Tables *)

(** A parsed report date. *)
Record date : Type := mkDate { year : Z; month : Z; day : Z }.

(** A row of the boundary shapefile restricted to the columns
    [ADM2_EN], [ADM3_EN] and [geometry]. *)
Record region (G : Type) : Type := mkRegion {
  ADM2_EN : value;
  ADM3_EN : value;
  adm_geometry : option G
}.
Arguments mkRegion {G}.
Arguments ADM2_EN {G}.
Arguments ADM3_EN {G}.
Arguments adm_geometry {G}.

(** A row of [malaria_cases.csv] with its date parsed; an empty count cell
    is NaN. *)
Record case_report : Type := mkCase {
  csv_facility_name : value;
  csv_Date : date;
  csv_cases : option Z
}.

(** A row of [merged_df]. *)
Record joined (G : Type) : Type := mkJoined {
  District : value;
  Sector : value;
  geometry : option G;
  Cleaned_ADM3_EN : string;
  facility_name : value;
  Date : date;
  Malaria_cases_OPD : option Z;
  Cleaned_Facility : string;
  Year : Z;
  Month : Z
}.
Arguments mkJoined {G}.
Arguments District {G}.
Arguments Sector {G}.
Arguments geometry {G}.
Arguments Cleaned_ADM3_EN {G}.
Arguments facility_name {G}.
Arguments Date {G}.
Arguments Malaria_cases_OPD {G}.
Arguments Cleaned_Facility {G}.
Arguments Year {G}.
Arguments Month {G}.

(** ** Join and date enrichment *)

Module Loader.

Section Merge.
Context {G : Type}.

(** One output row of the merge, with [Year] and [Month] derived from the
    date. *)
Definition join_row (a : region G) (c : case_report) : joined G :=
  {| District := ADM2_EN a;
     Sector := ADM3_EN a;
     geometry := adm_geometry a;
     Cleaned_ADM3_EN := clean_name (ADM3_EN a);
     facility_name := csv_facility_name c;
     Date := csv_Date c;
     Malaria_cases_OPD := csv_cases c;
     Cleaned_Facility := clean_name (csv_facility_name c);
     Year := year (csv_Date c);
     Month := month (csv_Date c) |}.

(** The case rows whose cleaned facility name equals the cleaned sector
    name of [a]. *)
Definition matches (a : region G) (df2 : list case_report) : list case_report :=
  filter (fun c => String.eqb (clean_name (ADM3_EN a))
                              (clean_name (csv_facility_name c))) df2.

(** [pd.merge(df_renamed, df2, left_on='Cleaned_ADM3_EN',
    right_on='Cleaned_Facility', how='inner')]: every pair of a left and a
    right row with equal keys, in the order of the left rows. *)
Definition merge (df_renamed : list (region G)) (df2 : list case_report)
  : list (joined G) :=
  flat_map (fun a => map (join_row a) (matches a df2)) df_renamed.

(** The case / geometry half of [load_data], from the two tables the
    readers return. *)
Definition load_data (df_malaria : list (region G)) (df2 : list case_report)
  : list (joined G) :=
  merge df_malaria df2.

End Merge.

End Loader.

(** ** Numbers *)

(** A float64 cell: an exact rational or one of the IEEE special values. *)
Inductive fnum : Type :=
| Fin (q : Q)
| PInf
| NInf
| NaN.

Module Num.

Definition of_Z (z : Z) : fnum := Fin (inject_Z z).

Definition is_zero (q : Q) : bool := Qnum q =? 0.
Definition is_neg (q : Q) : bool := Qnum q <? 0.

(** Sign of a finite operand applied to an infinity. *)
Definition signed_inf (pos : bool) (q : Q) : fnum :=
  if is_zero q then NaN
  else if Bool.eqb pos (is_neg q) then NInf else PInf.

Definition fmul (a b : fnum) : fnum :=
  match a, b with
  | Fin x, Fin y => Fin (Qred (x * y))
  | NaN, _ | _, NaN => NaN
  | PInf, Fin y | Fin y, PInf => signed_inf true y
  | NInf, Fin y | Fin y, NInf => signed_inf false y
  | PInf, PInf | NInf, NInf => PInf
  | PInf, NInf | NInf, PInf => NInf
  end.

(** True division as numpy performs it on scalars: a zero divisor gives an
    infinity or NaN (with a warning), never an exception. *)
Definition fdiv (a b : fnum) : fnum :=
  match a, b with
  | Fin x, Fin y =>
      if is_zero y then
        (if is_zero x then NaN else if is_neg x then NInf else PInf)
      else Fin (Qred (x / y))
  | NaN, _ | _, NaN => NaN
  | Fin _, _ => Fin 0
  | PInf, Fin y => if is_neg y then NInf else PInf
  | NInf, Fin y => if is_neg y then PInf else NInf
  | _, _ => NaN
  end.

(** [x >= 0]. *)
Definition fge0 (a : fnum) : bool :=
  match a with
  | Fin q => 0 <=? Qnum q
  | PInf => true
  | NInf | NaN => false
  end.

Definition is_finite (a : fnum) : bool :=
  match a with Fin _ => true | _ => false end.

(** Round half to even to the nearest integer. *)
Definition rint (q : Q) : Z :=
  let f := Qfloor q in
  match Qcompare (q - inject_Z f) (1 # 2) with
  | Lt => f
  | Gt => f + 1
  | Eq => if Z.even f then f else f + 1
  end.

(** [round(2)] on one cell. *)
Definition round2 (a : fnum) : fnum :=
  match a with
  | Fin q => Fin (Qred (inject_Z (rint (q * 100)) / 100))
  | _ => a
  end.

Definition zsum (xs : list Z) : Z := fold_right Z.add 0 xs.

(** The values of a column that are not NaN. *)
Fixpoint dropna (xs : list (option Z)) : list Z :=
  match xs with
  | [] => []
  | Some x :: r => x :: dropna r
  | None :: r => dropna r
  end.

(** Mean of integer values; NaN for none. *)
Definition zmean (xs : list Z) : fnum :=
  match xs with
  | [] => NaN
  | _ :: _ => Fin (Qred (Qmake (zsum xs) (Pos.of_nat (List.length xs))))
  end.

Definition zmax (xs : list Z) : fnum :=
  match xs with
  | [] => NaN
  | x :: r => of_Z (fold_right Z.max x r)
  end.

(** The three aggregations, skipping NaN as pandas does. *)
Definition agg_sum (xs : list (option Z)) : Z := zsum (dropna xs).
Definition agg_mean (xs : list (option Z)) : fnum := zmean (dropna xs).
Definition agg_max (xs : list (option Z)) : fnum := zmax (dropna xs).

End Num.

Import Num.

(** ** Exceptions *)

Inductive exn : Type :=
| IndexError
| AttributeError.

Inductive result (A : Type) : Type :=
| Ok (a : A)
| Err (e : exn).
Arguments Ok {A}.
Arguments Err {A}.

Definition bind {A B : Type} (m : result A) (k : A -> result B) : result B :=
  match m with
  | Ok a => k a
  | Err e => Err e
  end.

Notation "x <- m ;; k" := (bind m (fun x => k))
  (at level 61, m at next level, right associativity).

(** [l[i]] for a non-negative constant index. *)
Definition index {A : Type} (l : list A) (i : nat) : result A :=
  match nth_error l i with
  | Some a => Ok a
  | None => Err IndexError
  end.

(** ** Group-by *)

Section GroupBy.
Context {K R : Type} (cmp : K -> K -> comparison).

(** Insertion into a strictly increasing key list; a key already present is
    not repeated. *)
Fixpoint insert_key (k : K) (ks : list K) : list K :=
  match ks with
  | [] => [k]
  | h :: t =>
      match cmp k h with
      | Lt => k :: ks
      | Eq => ks
      | Gt => h :: insert_key k t
      end
  end.

Definition sorted_unique (ks : list K) : list K := fold_right insert_key [] ks.

(** The strict order of the keys. *)
Definition klt (a b : K) : Prop := cmp a b = Lt.

(** The keys of the rows; a row whose key is missing has none. *)
Fixpoint keys_of (key : R -> option K) (rows : list R) : list K :=
  match rows with
  | [] => []
  | r :: rest =>
      match key r with
      | Some k => k :: keys_of key rest
      | None => keys_of key rest
      end
  end.

Definition has_key (key : R -> option K) (k : K) (r : R) : bool :=
  match key r with
  | Some k' => match cmp k' k with Eq => true | _ => false end
  | None => false
  end.

(** [df.groupby(key)]: one group per distinct non-missing key, keys in
    increasing order, rows of a group in table order. *)
Definition groupby (key : R -> option K) (rows : list R) : list (K * list R) :=
  map (fun k => (k, filter (has_key key k) rows)) (sorted_unique (keys_of key rows)).

End GroupBy.

(** Order of [(Year, Month)] keys. *)
Definition cmp_ym (a b : Z * Z) : comparison :=
  match Z.compare (fst a) (fst b) with
  | Eq => Z.compare (snd a) (snd b)
  | c => c
  end.

(** ** Filter and aggregation engine *)

(** A row of [agg_data]. *)
Record agg_row : Type := mkRow {
  row_facility_name : string;
  Total_Cases : fnum;
  Average_Cases : fnum;
  Maximum_Cases : fnum
}.

Inductive color : Type :=
| Green   (* #2ecc71 *)
| Red.    (* #e74c3c *)

(** A popup of the marker layer: position and the numbers its card shows. *)
Record marker : Type := mkMarker {
  position : Q * Q;
  card_facility : string;
  card_total : fnum;
  card_average : fnum;
  card_maximum : fnum;
  card_growth : fnum;
  card_color : color
}.

(** An arrow added to a bar of the bar chart. *)
Record annotation : Type := mkAnnotation {
  ann_x : string;
  ann_y : fnum;
  arrow_color : color;
  arrow_up : bool
}.

Record bar_chart : Type := mkBar {
  bar_title : Z * Z;
  bars : list (string * fnum);
  annotations : list annotation
}.

(** A card of the summary row. *)
Record card : Type := mkCard { card_title : string; card_number : fnum }.

(** The seven outputs of the callback.  [geojson_features] holds the
    geometry of each feature that [district_data.geometry.to_json()]
    serialises, one per selected row; an empty figure [{}] is [None]. *)
Record response (G : Type) : Type := mkResponse {
  table_data : list agg_row;
  table_columns : list string;
  geojson_features : list (option G);
  marker_layer : list marker;
  bar_fig : option bar_chart;
  trend_fig : option (list (date * Z));
  summary_stats : list card
}.
Arguments mkResponse {G}.
Arguments table_data {G}.
Arguments table_columns {G}.
Arguments geojson_features {G}.
Arguments marker_layer {G}.
Arguments bar_fig {G}.
Arguments trend_fig {G}.
Arguments summary_stats {G}.

Module Engine.

Section Callback.
Context {G : Type}.
(** Centroid of a geometry as [(x, y)]. *)
Variable centroid : G -> Q * Q.

Definition cases_of (rows : list (joined G)) : list (option Z) :=
  map Malaria_cases_OPD rows.

(** The mask of the filter. *)
Definition mask (selected_district : value) (lo hi : Z) (r : joined G) : bool :=
  value_eqb (District r) selected_district && (lo <=? Year r) && (Year r <=? hi).

(** [merged_df.loc[mask]]. *)
Definition select (merged_df : list (joined G)) (selected_district : value)
    (lo hi : Z) : list (joined G) :=
  filter (mask selected_district lo hi) merged_df.

Definition facility_key (r : joined G) : option string :=
  match facility_name r with
  | Text s => Some s
  | Null => None
  end.

Definition month_key (r : joined G) : option (Z * Z) := Some (Year r, Month r).

Definition round_row (r : agg_row) : agg_row :=
  {| row_facility_name := row_facility_name r;
     Total_Cases := round2 (Total_Cases r);
     Average_Cases := round2 (Average_Cases r);
     Maximum_Cases := round2 (Maximum_Cases r) |}.

(** [groupby('facility_name')['Malaria_cases_OPD'].agg(sum, mean, max)],
    then [round(2)]. *)
Definition aggregate (district_data : list (joined G)) : list agg_row :=
  map (fun kg : string * list (joined G) =>
         round_row
           {| row_facility_name := fst kg;
              Total_Cases := of_Z (agg_sum (cases_of (snd kg)));
              Average_Cases := agg_mean (cases_of (snd kg));
              Maximum_Cases := agg_max (cases_of (snd kg)) |})
      (groupby String.compare facility_key district_data).

(** [groupby(['Year', 'Month'])['Malaria_cases_OPD'].sum().reset_index()]. *)
Definition monthly (rows : list (joined G)) : list ((Z * Z) * Z) :=
  map (fun kg : (Z * Z) * list (joined G) => (fst kg, agg_sum (cases_of (snd kg))))
      (groupby cmp_ym month_key rows).

(** The rows of one month. *)
Definition month_rows (rows : list (joined G)) (k : Z * Z) : list (joined G) :=
  filter (has_key cmp_ym month_key k) rows.

(** The rows of one facility. *)
Definition facility_rows (district_data : list (joined G)) (name : string)
  : list (joined G) :=
  filter (fun r => value_eqb (facility_name r) (Text name)) district_data.

(** [iloc[-i]] on the summed column, under the guard that it exists. *)
Definition iloc_back (i : nat) (m : list ((Z * Z) * Z)) : Z :=
  nth (List.length m - i) (map snd m) 0.

(** The growth expression shared by the marker loop and the bar loop. *)
Definition growth_expr (last_month prev_month : Z) : fnum :=
  if negb (prev_month =? 0)
  then fmul (fdiv (of_Z (last_month - prev_month)) (of_Z prev_month)) (of_Z 100)
  else of_Z 0.

(** Month-over-month growth as the marker loop computes it. *)
Definition mom_growth (facility_data : list (joined G)) : fnum :=
  let facility_monthly := monthly facility_data in
  if (1 <? List.length facility_monthly)%nat
  then growth_expr (iloc_back 1 facility_monthly) (iloc_back 2 facility_monthly)
  else of_Z 0.

Definition growth_color (g : fnum) : color := if fge0 g then Green else Red.

(** One pass of the marker loop: no marker for a facility without rows, an
    [AttributeError] when the first row has no geometry. *)
Definition make_marker (district_data : list (joined G)) (row : agg_row)
  : result (list marker) :=
  let facility_data := facility_rows district_data (row_facility_name row) in
  match facility_data with
  | [] => Ok []
  | first :: _ =>
      match geometry first with
      | None => Err AttributeError
      | Some g =>
          let lat := snd (centroid g) in
          let lon := fst (centroid g) in
          let growth := mom_growth facility_data in
          Ok [ {| position := (lat, lon);
                  card_facility := row_facility_name row;
                  card_total := Total_Cases row;
                  card_average := Average_Cases row;
                  card_maximum := Maximum_Cases row;
                  card_growth := growth;
                  card_color := growth_color growth |} ]
      end
  end.

Fixpoint make_markers (district_data : list (joined G)) (rows : list agg_row)
  : result (list marker) :=
  match rows with
  | [] => Ok []
  | row :: rest =>
      m <- make_marker district_data row ;;
      ms <- make_markers district_data rest ;;
      Ok (m ++ ms)%list
  end.

(** Month-over-month growth as the bar loop computes it: only for a
    facility with more than one monthly bucket. *)
Definition bar_growth (facility_data : list (joined G)) : option fnum :=
  let facility_monthly := monthly facility_data in
  if (1 <? List.length facility_monthly)%nat
  then Some (growth_expr (iloc_back 1 facility_monthly)
                         (iloc_back 2 facility_monthly))
  else None.

(** One pass of the bar loop. *)
Definition make_annotation (district_data : list (joined G)) (row : agg_row)
  : list annotation :=
  match bar_growth (facility_rows district_data (row_facility_name row)) with
  | Some g =>
      [ {| ann_x := row_facility_name row;
           ann_y := Total_Cases row;
           arrow_color := growth_color g;
           arrow_up := fge0 g |} ]
  | None => []
  end.

(** The date column of the trend chart: the first day of the month. *)
Definition trend (monthly_data : list ((Z * Z) * Z)) : list (date * Z) :=
  map (fun kv : (Z * Z) * Z =>
         ({| year := fst (fst kv); month := snd (fst kv); day := 1 |}, snd kv))
      monthly_data.

(** Period growth of the summary: no guard on a zero first value. *)
Definition growth_rate (monthly_data : list ((Z * Z) * Z)) : fnum :=
  if (2 <=? List.length monthly_data)%nat
  then fmul (fdiv (of_Z (iloc_back 1 monthly_data - nth 0 (map snd monthly_data) 0))
                  (of_Z (nth 0 (map snd monthly_data) 0)))
            (of_Z 100)
  else of_Z 0.

Definition columns : list string :=
  ["facility_name"; "Total Cases"; "Average Cases"; "Maximum Cases"].

(** The body of the [try] block. *)
Definition update_dashboard_body (merged_df : list (joined G))
    (selected_district : value) (year_range : list Z) : result (response G) :=
  lo <- index year_range 0 ;;
  hi <- index year_range 1 ;;
  let district_data := select merged_df selected_district lo hi in
  let agg_data := aggregate district_data in
  let geojson_data := map geometry district_data in
  markers <- make_markers district_data agg_data ;;
  let bar :=
    {| bar_title := (lo, hi);
       bars := map (fun r => (row_facility_name r, Total_Cases r)) agg_data;
       annotations := flat_map (make_annotation district_data) agg_data |} in
  let monthly_data := monthly district_data in
  let total_cases := of_Z (agg_sum (cases_of district_data)) in
  let avg_monthly := zmean (map snd monthly_data) in
  let summary :=
    [ {| card_title := "Total Cases"; card_number := total_cases |};
      {| card_title := "Monthly Average"; card_number := avg_monthly |};
      {| card_title := "Period Growth"; card_number := growth_rate monthly_data |} ] in
  Ok {| table_data := agg_data;
        table_columns := columns;
        geojson_features := geojson_data;
        marker_layer := markers;
        bar_fig := Some bar;
        trend_fig := Some (trend monthly_data);
        summary_stats := summary |}.

(** What the [except] branch returns. *)
Definition empty_response : response G :=
  {| table_data := [];
     table_columns := [];
     geojson_features := [];
     marker_layer := [];
     bar_fig := None;
     trend_fig := None;
     summary_stats := [] |}.

(** The callback: the body under [try ... except Exception]. *)
Definition update_dashboard (merged_df : list (joined G))
    (selected_district : value) (year_range : list Z) : response G :=
  match update_dashboard_body merged_df selected_district year_range with
  | Ok r => r
  | Err _ => empty_response
  end.

End Callback.

End Engine.

Import Engine.

(** ** The end-to-end scenario of the specification *)

Module Scenario.

Section Alpha.
Context {G : Type}.
Variables (y : Z) (g : G).

(** Sector "Alpha" of district "East". *)
Definition alpha_regions : list (region G) :=
  [ mkRegion (Text "East") (Text "Alpha") (Some g) ].

(** Facility "Alpha" reports 10 cases in January and 20 in February of
    year [y]. *)
Definition alpha_reports : list case_report :=
  [ mkCase (Text "Alpha") (mkDate y 1 15) (Some 10);
    mkCase (Text "Alpha") (mkDate y 2 15) (Some 20) ].

Definition alpha_table : list (joined G) :=
  Loader.load_data alpha_regions alpha_reports.

End Alpha.

End Scenario.

(** ** Start-up: wetland layer and filter controls *)

(** No character of the text is white space. *)
Fixpoint no_white (s : string) : bool :=
  match s with
  | EmptyString => true
  | String c r => negb (isspace c) && no_white r
  end.

(** How many regions have the key of the report [c]. *)
Definition region_count {G : Type} (shp : list (region G)) (c : case_report)
  : nat :=
  List.length
    (filter (fun a => String.eqb (clean_name (ADM3_EN a))
                                 (clean_name (csv_facility_name c))) shp).

(** The count of a report, 0 for NaN. *)
Definition reported (c : case_report) : Z :=
  match csv_cases c with
  | Some n => n
  | None => 0
  end.

Module Wetlands.

(** A row of the wetlands shapefile restricted to the columns the program
    reads. *)
Record source_row (G : Type) : Type := mkSource {
  src_Nom : value;
  src_Area_1 : fnum;
  src_geometry : option G
}.
Arguments mkSource {G}.
Arguments src_Nom {G}.
Arguments src_Area_1 {G}.
Arguments src_geometry {G}.

(** A row of [df_wetlands] as [load_data] returns it. *)
Record wetland (G : Type) : Type := mkWetland {
  Nom : value;
  Area_1 : fnum;
  wet_geometry : option G;
  Area_km2 : fnum
}.
Arguments mkWetland {G}.
Arguments Nom {G}.
Arguments Area_1 {G}.
Arguments wet_geometry {G}.
Arguments Area_km2 {G}.

(** A record of the wetlands table of the page. *)
Record table_row : Type := mkTableRow {
  cell_Nom : value;
  cell_Area_km2 : fnum
}.

Section Prepare.
Context {G : Type}.
(** Reprojection of one geometry to EPSG:4326. *)
Variable to_crs : G -> G.

Definition reproject (w : source_row G) : source_row G :=
  {| src_Nom := src_Nom w;
     src_Area_1 := src_Area_1 w;
     src_geometry := option_map to_crs (src_geometry w) |}.

Definition notna (w : source_row G) : bool :=
  match src_geometry w with Some _ => true | None => false end.

(** The wetland half of [load_data], on the rows of a file that carries a
    coordinate reference: reproject, keep the rows that have a geometry,
    copy [Area_1] into [Area_km2]. *)
Definition df_wetlands (rows : list (source_row G)) : list (wetland G) :=
  map (fun w => {| Nom := src_Nom w;
                   Area_1 := src_Area_1 w;
                   wet_geometry := src_geometry w;
                   Area_km2 := src_Area_1 w |})
      (filter notna (map reproject rows)).

(** The [data] of [wetlands_table]: the columns [Nom] and [Area_1], the
    latter renamed [Area_km2] and rounded to two decimal places. *)
Definition wetlands_table (df : list (wetland G)) : list table_row :=
  map (fun w => {| cell_Nom := Nom w; cell_Area_km2 := round2 (Area_1 w) |}) df.

End Prepare.

End Wetlands.

Module Layout.

(** What the construction of the layout can raise. *)
Inductive layout_exn : Type :=
| LayoutIndexError
| LayoutTypeError.

Inductive outcome (A : Type) : Type :=
| Built (a : A)
| Raised (e : layout_exn).
Arguments Built {A}.
Arguments Raised {A}.

Definition andThen {A B : Type} (m : outcome A) (k : A -> outcome B) : outcome B :=
  match m with
  | Built a => k a
  | Raised e => Raised e
  end.

(** Equality of two cells as [unique] sees it: two missing values are the
    same value. *)
Definition same_value (a b : value) : bool :=
  match a, b with
  | Null, Null => true
  | Text x, Text y => String.eqb x y
  | _, _ => false
  end.

(** [Series.unique()]: the distinct values in order of first appearance. *)
Fixpoint unique_from (seen vs : list value) : list value :=
  match vs with
  | [] => []
  | v :: r =>
      if existsb (same_value v) seen then unique_from seen r
      else v :: unique_from (v :: seen) r
  end.

Definition unique (vs : list value) : list value := unique_from [] vs.

Fixpoint insert_sorted (s : string) (l : list string) : list string :=
  match l with
  | [] => [s]
  | h :: t =>
      match String.compare s h with
      | Gt => h :: insert_sorted s t
      | _ => s :: l
      end
  end.

Definition sort_strings (l : list string) : list string :=
  fold_right insert_sorted [] l.

Fixpoint texts (vs : list value) : list string :=
  match vs with
  | [] => []
  | Text s :: r => s :: texts r
  | Null :: r => texts r
  end.

Definition has_null (vs : list value) : bool :=
  existsb (fun v => match v with Null => true | Text _ => false end) vs.

(** [sorted(values)] on distinct values: a missing value cannot be compared
    with anything, so it raises [TypeError] unless it is alone. *)
Definition sorted (vs : list value) : outcome (list value) :=
  if has_null vs then
    match vs with
    | [_] => Built vs
    | _ => Raised LayoutTypeError
    end
  else Built (map Text (sort_strings (texts vs))).

(** [range(lo, hi)]. *)
Definition range (lo hi : Z) : list Z :=
  map (fun i => lo + Z.of_nat i) (seq 0 (Z.to_nat (hi - lo))).

(** The properties of the two filter controls that depend on the table. *)
Record controls : Type := mkControls {
  options : list value;
  dropdown_value : value;
  slider_min : Z;
  slider_max : Z;
  slider_value : list Z;
  marks : list Z
}.

Section Controls.
Context {G : Type}.

(** [merged_df['Year'].min()] and [.max()]; [None] is the NaN of an empty
    column. *)
Definition min_year (merged_df : list (joined G)) : option Z :=
  match map Year merged_df with
  | [] => None
  | y :: ys => Some (fold_right Z.min y ys)
  end.

Definition max_year (merged_df : list (joined G)) : option Z :=
  match map Year merged_df with
  | [] => None
  | y :: ys => Some (fold_right Z.max y ys)
  end.

(** The dropdown and the range slider of [app.layout], in the order the
    layout expression evaluates them. *)
Definition filter_controls (merged_df : list (joined G)) : outcome controls :=
  andThen (sorted (unique (map District merged_df))) (fun opts =>
  andThen (match unique (map District merged_df) with
           | [] => Raised LayoutIndexError
           | d :: _ => Built d
           end) (fun d =>
  match min_year merged_df, max_year merged_df with
  | Some lo, Some hi =>
      Built {| options := opts;
               dropdown_value := d;
               slider_min := lo;
               slider_max := hi;
               slider_value := [lo; hi];
               marks := range lo (hi + 1) |}
  | _, _ => Raised LayoutTypeError
  end)).

End Controls.

End Layout.

(** A marker shows the numbers of a table row. *)
Definition shows (row : agg_row) (m : marker) : Prop :=
  card_facility m = row_facility_name row
  /\ card_total m = Total_Cases row
  /\ card_average m = Average_Cases row
  /\ card_maximum m = Maximum_Cases row.

(** The case count of a row, 0 for NaN. *)
Definition counted {G : Type} (r : joined G) : Z :=
  match Malaria_cases_OPD r with
  | Some n => n
  | None => 0
  end.

(** The row has a facility name. *)
Definition named {G : Type} (r : joined G) : bool :=
  match facility_name r with
  | Text _ => true
  | Null => false
  end.

(** Chronological order of the months of two dates. *)
Definition month_before (a b : date) : Prop :=
  klt cmp_ym (year a, month a) (year b, month b).

(** * Properties *)

(** ** Name normaliser *)

Section NormalizerFacts.

Lemma split_head (t : string) : hd "" (split " " t) = before_blank t.
Proof.
  induction t as [|c r IH]; simpl; [reflexivity|].
  destruct (Ascii.eqb c " "); [reflexivity|].
  destruct (split " " r) as [|f fs]; simpl in *; now rewrite <- IH.
Qed.

Lemma lstrip_blanks_only (s : string) :
  blanks_only s = true -> blanks_only (lstrip s) = true.
Proof.
  induction s as [|c r IH]; simpl; [trivial|].
  intros H. apply andb_prop in H as [Hc Hr].
  destruct (isspace c) eqn:E; [auto|].
  simpl. now rewrite E, Hr, orb_true_l.
Qed.

Lemma rstrip_blanks_only (s : string) :
  blanks_only s = true -> blanks_only (rstrip s) = true.
Proof.
  induction s as [|c r IH]; simpl; [trivial|].
  intros H. apply andb_prop in H as [Hc Hr].
  specialize (IH Hr).
  destruct (rstrip r) as [|c' r'].
  - destruct (isspace c) eqn:E; simpl; [reflexivity|].
    now rewrite E.
  - change (blanks_only (String c (String c' r')) = true).
    simpl in *. now rewrite Hc, IH.
Qed.

Lemma blanks_only_tokens (t : string) :
  blanks_only t = true -> before_blank t = first_token t.
Proof.
  induction t as [|c r IH]; simpl; [trivial|].
  intros H. apply andb_prop in H as [Hc Hr].
  destruct (Ascii.eqb c " ") eqn:E.
  - apply Ascii.eqb_eq in E. subst c. reflexivity.
  - rewrite orb_false_r in Hc. apply negb_true_iff in Hc.
    rewrite Hc. now rewrite IH.
Qed.

(** The stripped text is empty or starts with a character that is not white
    space. *)
Lemma lstrip_head (s : string) :
  match lstrip s with
  | EmptyString => all_space s = true
  | String c _ => isspace c = false /\ all_space s = false
  end.
Proof.
  induction s as [|c r IH]; simpl; [reflexivity|].
  destruct (isspace c) eqn:E; simpl; [exact IH|].
  now rewrite E.
Qed.

Lemma rstrip_head (c : ascii) (r : string) :
  isspace c = false -> exists r', rstrip (String c r) = String c r'.
Proof.
  intros E. simpl. destruct (rstrip r) as [|c' r'].
  - rewrite E. now exists EmptyString.
  - now exists (String c' r').
Qed.

Lemma strip_empty_iff (s : string) : strip s = "" <-> all_space s = true.
Proof.
  unfold strip. pose proof (lstrip_head s) as H.
  destruct (lstrip s) as [|c r].
  - simpl. tauto.
  - destruct H as [Hc Hs]. destruct (rstrip_head c r Hc) as [r' Hr].
    rewrite Hr, Hs. split; discriminate.
Qed.

Lemma strip_head (s : string) :
  match strip s with
  | EmptyString => True
  | String c _ => isspace c = false
  end.
Proof.
  unfold strip. pose proof (lstrip_head s) as H.
  destruct (lstrip s) as [|c r]; [exact I|].
  destruct H as [Hc _]. destruct (rstrip_head c r Hc) as [r' Hr].
  now rewrite Hr.
Qed.

Lemma lower_empty_iff (s : string) : lower s = "" <-> s = "".
Proof. destruct s; simpl; split; congruence. Qed.

(** A name normalises to the empty key exactly when it is missing or
    consists of white space only. *)
Lemma clean_name_empty_iff (v : value) :
  clean_name v = "" <->
  v = Null \/ exists s, v = Text s /\ all_space s = true.
Proof.
  destruct v as [|s]; simpl.
  - split; auto.
  - rewrite lower_empty_iff, split_head.
    pose proof (strip_head s) as Hh. pose proof (strip_empty_iff s) as He.
    destruct (strip s) as [|c r] eqn:E.
    + simpl. split; [intros _|trivial].
      right. exists s. split; [reflexivity|]. now apply He.
    + simpl. destruct (Ascii.eqb c " ") eqn:Ec.
      * apply Ascii.eqb_eq in Ec. subst c. discriminate Hh.
      * split; [discriminate|].
        intros [H|[s' [H1 H2]]]; [discriminate|].
        injection H1 as <-. apply He in H2. discriminate.
Qed.

End NormalizerFacts.

(** ** Group-by *)

Section GroupByFacts.
Context {K R : Type} (cmp : K -> K -> comparison).
Hypothesis cmp_eq : forall a b, cmp a b = Eq <-> a = b.
Hypothesis cmp_antisym : forall a b, cmp a b = CompOpp (cmp b a).
Hypothesis cmp_trans : forall a b c, cmp a b = Lt -> cmp b c = Lt -> cmp a c = Lt.

Lemma insert_key_In (k x : K) (ks : list K) :
  In x (insert_key cmp k ks) <-> x = k \/ In x ks.
Proof.
  induction ks as [|h t IH]; simpl.
  - intuition.
  - destruct (cmp k h) eqn:E; simpl.
    + apply cmp_eq in E. subst h. intuition.
    + intuition.
    + rewrite IH. intuition.
Qed.

Lemma insert_key_sorted (k : K) (ks : list K) :
  StronglySorted (klt cmp) ks -> StronglySorted (klt cmp) (insert_key cmp k ks).
Proof.
  induction 1 as [|h t Hs IH Hf]; simpl.
  - repeat constructor.
  - destruct (cmp k h) eqn:E.
    + now constructor.
    + constructor; [now constructor|].
      constructor; [exact E|].
      eapply Forall_impl; [|exact Hf].
      intros a Ha. exact (cmp_trans _ _ _ E Ha).
    + constructor; [exact IH|].
      apply Forall_forall. intros x Hx.
      apply insert_key_In in Hx as [->|Hx].
      * unfold klt. rewrite cmp_antisym, E. reflexivity.
      * rewrite Forall_forall in Hf. now apply Hf.
Qed.

Lemma sorted_unique_In (x : K) (ks : list K) :
  In x (sorted_unique cmp ks) <-> In x ks.
Proof.
  induction ks as [|h t IH]; simpl; [tauto|].
  rewrite insert_key_In, IH. intuition.
Qed.

Lemma sorted_unique_sorted (ks : list K) :
  StronglySorted (klt cmp) (sorted_unique cmp ks).
Proof.
  induction ks as [|h t IH]; simpl; [constructor|].
  now apply insert_key_sorted.
Qed.

Lemma klt_irrefl (a : K) : ~ klt cmp a a.
Proof.
  unfold klt. intros H.
  assert (E : cmp a a = Eq) by now apply cmp_eq.
  congruence.
Qed.

Lemma sorted_NoDup (ks : list K) : StronglySorted (klt cmp) ks -> NoDup ks.
Proof.
  induction 1 as [|h t Hs IH Hf]; constructor; [|exact IH].
  intros Hin. rewrite Forall_forall in Hf.
  exact (klt_irrefl h (Hf h Hin)).
Qed.

Lemma keys_of_In (key : R -> option K) (k : K) (rows : list R) :
  In k (keys_of key rows) <-> exists r, In r rows /\ key r = Some k.
Proof.
  induction rows as [|r rest IH]; simpl.
  - split; [tauto|]. intros [r [[] _]].
  - destruct (key r) as [k'|] eqn:E; simpl; rewrite IH; split.
    + intros [->|[r' [H1 H2]]]; [exists r; auto|exists r'; auto].
    + intros [r' [[->|H1] H2]]; [left; congruence|right; eauto].
    + intros [r' [H1 H2]]. eauto.
    + intros [r' [[->|H1] H2]]; [congruence|eauto].
Qed.

Lemma has_key_iff (key : R -> option K) (k : K) (r : R) :
  has_key cmp key k r = true <-> key r = Some k.
Proof.
  unfold has_key. destruct (key r) as [k'|]; [|split; discriminate].
  destruct (cmp k' k) eqn:E.
  - apply cmp_eq in E. subst. tauto.
  - split; [discriminate|]. intros [= ->].
    exfalso. exact (klt_irrefl k E).
  - split; [discriminate|]. intros [= ->].
    assert (E' : cmp k k = Eq) by now apply cmp_eq. congruence.
Qed.

Lemma groupby_keys (key : R -> option K) (rows : list R) :
  map fst (groupby cmp key rows) = sorted_unique cmp (keys_of key rows).
Proof.
  unfold groupby. rewrite map_map. simpl. apply map_id.
Qed.

Lemma groupby_In (key : R -> option K) (rows : list R) (k : K) (g : list R) :
  In (k, g) (groupby cmp key rows) <->
  (exists r, In r rows /\ key r = Some k) /\
  g = filter (has_key cmp key k) rows.
Proof.
  unfold groupby. rewrite in_map_iff. split.
  - intros [k' [[= -> <-] Hin]].
    apply sorted_unique_In, keys_of_In in Hin. auto.
  - intros [Hin ->]. exists k. split; [reflexivity|].
    now apply sorted_unique_In, keys_of_In.
Qed.

Lemma groupby_sorted (key : R -> option K) (rows : list R) :
  StronglySorted (klt cmp) (map fst (groupby cmp key rows)).
Proof. rewrite groupby_keys. apply sorted_unique_sorted. Qed.

Lemma groupby_NoDup (key : R -> option K) (rows : list R) :
  NoDup (map fst (groupby cmp key rows)).
Proof. apply sorted_NoDup, groupby_sorted. Qed.

Lemma groupby_nil (key : R -> option K) (rows : list R) :
  (forall r, In r rows -> key r = None) -> groupby cmp key rows = [].
Proof.
  intros H. unfold groupby.
  assert (E : keys_of key rows = []).
  { induction rows as [|r rest IH]; simpl; [reflexivity|].
    rewrite (H r (or_introl eq_refl)). apply IH.
    intros r' Hr'. apply H. now right. }
  now rewrite E.
Qed.

End GroupByFacts.

(** The two key orders of the engine. *)

Lemma string_cmp_eq (a b : string) : String.compare a b = Eq <-> a = b.
Proof. apply OrderedTypeEx.String_as_OT.cmp_eq. Qed.

Lemma string_cmp_trans (a b c : string) :
  String.compare a b = Lt -> String.compare b c = Lt -> String.compare a c = Lt.
Proof.
  intros H1 H2.
  apply OrderedTypeEx.String_as_OT.cmp_lt in H1, H2.
  apply OrderedTypeEx.String_as_OT.cmp_lt.
  eapply OrderedTypeEx.String_as_OT.lt_trans; eassumption.
Qed.

Lemma cmp_ym_eq (a b : Z * Z) : cmp_ym a b = Eq <-> a = b.
Proof.
  destruct a as [y m], b as [y' m']. unfold cmp_ym. simpl.
  destruct (Z.compare_spec y y'); [subst|split; [discriminate|intros [= ]; lia]..].
  destruct (Z.compare_spec m m'); split; try discriminate; try congruence;
    intros [= ]; lia.
Qed.

Lemma cmp_ym_antisym (a b : Z * Z) : cmp_ym a b = CompOpp (cmp_ym b a).
Proof.
  destruct a as [y m], b as [y' m']. unfold cmp_ym. simpl.
  rewrite (Z.compare_antisym y' y), (Z.compare_antisym m' m).
  destruct (y' ?= y); reflexivity.
Qed.

Lemma cmp_ym_lt (a b : Z * Z) :
  cmp_ym a b = Lt <-> fst a < fst b \/ fst a = fst b /\ snd a < snd b.
Proof.
  destruct a as [y m], b as [y' m']. unfold cmp_ym. simpl.
  destruct (Z.compare_spec y y'); [subst|split; [lia|reflexivity]|split; [discriminate|lia]].
  rewrite Z.compare_lt_iff. lia.
Qed.

Lemma cmp_ym_trans (a b c : Z * Z) :
  cmp_ym a b = Lt -> cmp_ym b c = Lt -> cmp_ym a c = Lt.
Proof. rewrite !cmp_ym_lt. lia. Qed.

(** ** Claims on the name normaliser *)

(** C2, as the specification states it, fails: the code splits on the space
    character only, so a tab inside a name does not end the first token. *)
Lemma clean_name_tab_counterexample :
  clean_name (Text ("Kigali" ++ String "009" "Central"))
    = "kigali" ++ String "009" "central"
  /\ normalize (Text ("Kigali" ++ String "009" "Central")) = "kigali"
  /\ clean_name (Text ("Kigali" ++ String "009" "Central"))
     <> normalize (Text ("Kigali" ++ String "009" "Central")).
Proof. repeat split. discriminate. Qed.

(** C2 (amended): the normaliser returns the empty string for a missing
    value; otherwise it strips leading and trailing white space, takes the
    text before the first space character and lower-cases it.  On every
    input whose white-space characters are all space characters this is the
    first white-space-delimited token, lower-cased; in particular
    normalize(null) = "", normalize("  Kigali Central ") = "kigali" and
    normalize("Single") = "single". *)
Theorem clean_name_first_space_token :
  clean_name Null = ""
  /\ (forall s, clean_name (Text s) = lower (before_blank (strip s)))
  /\ (forall v, blanks_only_value v = true -> clean_name v = normalize v)
  /\ clean_name (Text "  Kigali Central ") = "kigali"
  /\ clean_name (Text "Single") = "single".
Proof.
  split; [reflexivity|].
  split; [intros s; simpl; now rewrite split_head|].
  split; [|split; reflexivity].
  intros [|s] H; simpl in *; [reflexivity|].
  rewrite split_head. f_equal.
  apply blanks_only_tokens.
  unfold strip. now apply rstrip_blanks_only, lstrip_blanks_only.
Qed.

Lemma clean_name_first_space_token_witness :
  blanks_only_value (Text " Nyarugenge  District ") = true
  /\ clean_name (Text " Nyarugenge  District ")
     = normalize (Text " Nyarugenge  District ").
Proof.
  split; [reflexivity|].
  apply (proj1 (proj2 (proj2 clean_name_first_space_token))).
  reflexivity.
Defined.

(** ** Claims on the join *)

Section JoinFacts.
Context {G : Type}.
Implicit Types (shp : list (region G)) (csv : list case_report) (r : joined G).

Lemma merge_In shp csv r :
  In r (Loader.merge shp csv) <->
  exists a c, In a shp /\ In c csv
    /\ clean_name (ADM3_EN a) = clean_name (csv_facility_name c)
    /\ r = Loader.join_row a c.
Proof.
  unfold Loader.merge, Loader.matches. rewrite in_flat_map. split.
  - intros [a [Ha Hr]]. apply in_map_iff in Hr as [c [<- Hc]].
    apply filter_In in Hc as [Hc E]. apply String.eqb_eq in E.
    exists a, c. auto.
  - intros [a [c [Ha [Hc [E ->]]]]]. exists a. split; [exact Ha|].
    apply in_map, filter_In. split; [exact Hc|]. now apply String.eqb_eq.
Qed.

End JoinFacts.

(** C3, as stated, fails: the join keeps a matched region without a
    geometry and a matched report without a count. *)
Lemma load_data_null_cells_counterexample :
  ~ (forall r : joined nat,
       In r (Loader.load_data
               [mkRegion (Text "East") (Text "Alpha") None]
               [mkCase (Text "Alpha Health Centre") (mkDate 2020 1 15) None]) ->
       geometry r <> None /\ Malaria_cases_OPD r <> None).
Proof.
  intros H.
  destruct (H _ (or_introl eq_refl)) as [Hg _].
  now apply Hg.
Qed.

(** C3 (amended): a row is in the Joined Record table exactly when it
    combines one region row and one case row whose normalised keys are
    equal; it carries that region's geometry and that report's case count
    unchanged, so both are non-null whenever all source cells are; no row
    whose normalised key lacks a counterpart on the other side appears. *)
Theorem load_data_inner_join (G : Type) (shp : list (region G))
    (csv : list case_report) :
  (forall r, In r (Loader.load_data shp csv) <->
     exists a c, In a shp /\ In c csv
       /\ clean_name (ADM3_EN a) = clean_name (csv_facility_name c)
       /\ r = Loader.join_row a c)
  /\ (forall r, In r (Loader.load_data shp csv) ->
        Cleaned_ADM3_EN r = Cleaned_Facility r
        /\ (exists a, In a shp /\ clean_name (ADM3_EN a) = Cleaned_Facility r
                      /\ geometry r = adm_geometry a)
        /\ (exists c, In c csv
                      /\ clean_name (csv_facility_name c) = Cleaned_ADM3_EN r
                      /\ Malaria_cases_OPD r = csv_cases c))
  /\ ((forall a, In a shp -> adm_geometry a <> None) ->
      (forall c, In c csv -> csv_cases c <> None) ->
      forall r, In r (Loader.load_data shp csv) ->
        geometry r <> None /\ Malaria_cases_OPD r <> None).
Proof.
  unfold Loader.load_data.
  split; [intros r; apply merge_In|]. split.
  - intros r Hr. apply merge_In in Hr as [a [c [Ha [Hc [E ->]]]]]. simpl.
    split; [exact E|]. split; [exists a|exists c]; auto.
  - intros Hg Hn r Hr. apply merge_In in Hr as [a [c [Ha [Hc [E ->]]]]].
    simpl. auto.
Qed.

Lemma load_data_inner_join_witness :
  let shp := [mkRegion (Text "East") (Text "Alpha") (Some 1%nat)] in
  let csv := [mkCase (Text "Alpha Health Centre") (mkDate 2020 1 15) (Some 10)] in
  let r := Loader.join_row (mkRegion (Text "East") (Text "Alpha") (Some 1%nat))
             (mkCase (Text "Alpha Health Centre") (mkDate 2020 1 15) (Some 10)) in
  In r (Loader.load_data shp csv)
  /\ geometry r <> None /\ Malaria_cases_OPD r <> None.
Proof.
  intros shp csv r.
  assert (Hin : In r (Loader.load_data shp csv)) by (left; reflexivity).
  split; [exact Hin|].
  apply (proj2 (proj2 (load_data_inner_join nat shp csv))); [| |exact Hin].
  - intros a [<-|[]]. discriminate.
  - intros c [<-|[]]. discriminate.
Defined.

(** C4, as stated, fails: two names that both normalise to the empty string
    have equal keys, and the join pairs them. *)
Lemma empty_key_joins_counterexample :
  ~ (forall r : joined nat,
       In r (Loader.load_data
               [mkRegion (Text "East") Null (Some 1%nat)]
               [mkCase (Text "   ") (mkDate 2020 1 15) (Some 10)]) ->
       Cleaned_Facility r <> "" /\ Cleaned_ADM3_EN r <> "").
Proof.
  intros H.
  destruct (H _ (or_introl eq_refl)) as [Hk _].
  now apply Hk.
Qed.

(** C4 (amended): a name normalises to the empty string exactly when it is
    missing or white space only; such a name is joined exactly with the
    rows of the other side whose name also normalises to the empty string,
    so it matches nothing when the other side has no such name, and a row
    of the Joined Record table has an empty key only when both its sector
    name and its facility name normalise to the empty string. *)
Theorem empty_key_joins_only_empty_key (G : Type) (shp : list (region G))
    (csv : list case_report) :
  (forall v, clean_name v = "" <->
             v = Null \/ exists s, v = Text s /\ all_space s = true)
  /\ (forall r, In r (Loader.load_data shp csv) ->
        (Cleaned_Facility r = "" \/ Cleaned_ADM3_EN r = "") ->
        exists a c, In a shp /\ In c csv
          /\ clean_name (ADM3_EN a) = ""
          /\ clean_name (csv_facility_name c) = ""
          /\ r = Loader.join_row a c)
  /\ ((forall a, In a shp -> clean_name (ADM3_EN a) <> "") ->
      forall r, In r (Loader.load_data shp csv) ->
        Cleaned_Facility r <> "" /\ Cleaned_ADM3_EN r <> "")
  /\ ((forall c, In c csv -> clean_name (csv_facility_name c) <> "") ->
      forall r, In r (Loader.load_data shp csv) ->
        Cleaned_Facility r <> "" /\ Cleaned_ADM3_EN r <> "").
Proof.
  unfold Loader.load_data.
  split; [exact clean_name_empty_iff|].
  split; [|split].
  - intros r Hr Hk. apply merge_In in Hr as [a [c [Ha [Hc [E ->]]]]].
    simpl in Hk. exists a, c.
    repeat split; try assumption; destruct Hk; congruence.
  - intros Hne r Hr. apply merge_In in Hr as [a [c [Ha [Hc [E ->]]]]].
    simpl. specialize (Hne a Ha). split; congruence.
  - intros Hne r Hr. apply merge_In in Hr as [a [c [Ha [Hc [E ->]]]]].
    simpl. specialize (Hne c Hc). split; congruence.
Qed.

Lemma empty_key_joins_only_empty_key_witness :
  let shp := [mkRegion (Text "East") (Text "Alpha") (Some 1%nat)] in
  let csv := [mkCase (Text "Alpha Health Centre") (mkDate 2020 1 15) (Some 10);
              mkCase Null (mkDate 2020 1 15) (Some 4)] in
  List.length (Loader.load_data shp csv) = 1%nat
  /\ Forall (fun r => Cleaned_Facility r <> "" /\ Cleaned_ADM3_EN r <> "")
            (Loader.load_data shp csv).
Proof.
  intros shp csv. split; [reflexivity|].
  apply Forall_forall.
  apply (proj1 (proj2 (proj2 (empty_key_joins_only_empty_key nat shp csv)))).
  intros a [<-|[]]. discriminate.
Defined.

(** ** Numbers *)

Section NumberFacts.

Lemma Qred_inject_Z (z : Z) : Qred (inject_Z z) = inject_Z z.
Proof.
  unfold Qred, inject_Z.
  pose proof (Z.ggcd_gcd z 1) as Hg.
  pose proof (Z.ggcd_correct_divisors z 1) as Hd.
  destruct (Z.ggcd z 1) as [g [aa bb]]. simpl in *.
  rewrite Z.gcd_1_r in Hg. subst g. destruct Hd as [Ha Hb].
  replace aa with z by lia. replace bb with 1 by lia. reflexivity.
Qed.

Lemma rint_inject_Z (z : Z) : rint (inject_Z z) = z.
Proof.
  unfold rint. rewrite Qfloor_Z.
  assert (E : Qcompare (inject_Z z - inject_Z z) (1 # 2) = Lt).
  { apply (proj1 (Qlt_alt _ _)). generalize (inject_Z z). intros x. lra. }
  now rewrite E.
Qed.

Lemma rint_proper (x y : Q) : x == y -> rint x = rint y.
Proof.
  intros E. unfold rint. rewrite (Qfloor_comp _ _ E).
  assert (E' : Qcompare (x - inject_Z (Qfloor y)) (1 # 2)
               = Qcompare (y - inject_Z (Qfloor y)) (1 # 2)).
  { apply Qcompare_comp; [now rewrite E|reflexivity]. }
  now rewrite E'.
Qed.

Lemma round2_of_Z (z : Z) : round2 (of_Z z) = of_Z z.
Proof.
  unfold round2, of_Z. f_equal.
  transitivity (Qred (inject_Z z)); [|apply Qred_inject_Z].
  apply Qred_complete.
  rewrite (rint_proper _ (inject_Z (z * 100))), rint_inject_Z.
  - rewrite inject_Z_mult. field.
  - rewrite inject_Z_mult. reflexivity.
Qed.

(** Rounding moves a value by at most a half to an integer. *)
Lemma rint_close (x : Q) : (Qabs (inject_Z (rint x) - x) <= 1 # 2)%Q.
Proof.
  unfold rint.
  pose proof (Qfloor_le x) as Hl. pose proof (Qlt_floor x) as Hu.
  rewrite inject_Z_plus in Hu. change (inject_Z 1) with 1%Q in Hu.
  destruct (Qcompare (x - inject_Z (Qfloor x)) (1 # 2)) eqn:E;
    [apply (proj2 (Qeq_alt _ _)) in E; destruct (Z.even (Qfloor x))
    |apply (proj2 (Qlt_alt _ _)) in E
    |apply (proj2 (Qgt_alt _ _)) in E];
    rewrite ?inject_Z_plus; change (inject_Z 1) with 1%Q;
    revert Hl Hu E; generalize (inject_Z (Qfloor x)); intros f Hl Hu E;
    apply Qabs_Qle_condition; split; lra.
Qed.

Lemma round2_spec (q : Q) :
  exists n : Z, round2 (Fin q) = Fin (Qred (inject_Z n / 100))
    /\ (Qabs (inject_Z n / 100 - q) <= 1 # 200)%Q.
Proof.
  exists (rint (q * 100)). split; [reflexivity|].
  pose proof (rint_close (q * 100)) as H.
  apply Qabs_Qle_condition in H. destruct H as [H1 H2].
  revert H1 H2. generalize (inject_Z (rint (q * 100))). intros r H1 H2.
  unfold Qdiv. change (/ 100)%Q with (1 # 100)%Q.
  apply Qabs_Qle_condition. split; lra.
Qed.

Lemma zmax_spec (x : Z) (xs : list Z) :
  exists m, zmax (x :: xs) = of_Z m /\ In m (x :: xs)
    /\ forall z, In z (x :: xs) -> z <= m.
Proof.
  unfold zmax. exists (fold_right Z.max x xs). split; [reflexivity|].
  induction xs as [|a r [IH1 IH2]]; simpl.
  - split; [now left|]. intros z [<-|[]]. lia.
  - split.
    + destruct (Z.max_spec a (fold_right Z.max x r)) as [[_ ->]|[_ ->]].
      * destruct IH1 as [H|H]; [now left|right; now right].
      * right. now left.
    + intros z [<-|[<-|H]].
      * specialize (IH2 x (or_introl eq_refl)). lia.
      * lia.
      * specialize (IH2 z (or_intror H)). lia.
Qed.

Lemma zmean_spec (x : Z) (xs : list Z) :
  exists q, zmean (x :: xs) = Fin q
    /\ (q == inject_Z (zsum (x :: xs))
             / inject_Z (Z.of_nat (List.length (x :: xs))))%Q.
Proof.
  unfold zmean. eexists. split; [reflexivity|].
  rewrite Qred_correct, Qmake_Qdiv.
  replace (Z.pos (Pos.of_nat (List.length (x :: xs))))
    with (Z.of_nat (List.length (x :: xs))); [reflexivity|].
  simpl List.length. rewrite <- Pos.of_nat_succ. lia.
Qed.

End NumberFacts.

(** ** The filter *)

Section EngineFacts.
Context {G : Type} (centroid : G -> Q * Q).
Implicit Types (df dd : list (joined G)) (r : joined G) (d : value).

Lemma select_In df d (lo hi : Z) r :
  In r (select df d lo hi) <->
  In r df /\ value_eqb (District r) d = true /\ lo <= Year r <= hi.
Proof.
  unfold select, mask. rewrite filter_In, !andb_true_iff, !Z.leb_le. tauto.
Qed.

Lemma select_inverted df d (lo hi : Z) : hi < lo -> select df d lo hi = [].
Proof.
  intros H. unfold select.
  induction df as [|r rest IH]; simpl; [reflexivity|].
  unfold mask at 1.
  destruct (lo <=? Year r) eqn:E1, (Year r <=? hi) eqn:E2;
    rewrite ?andb_false_r; try exact IH.
  apply Z.leb_le in E1, E2. lia.
Qed.

Lemma select_unknown df d (lo hi : Z) :
  (forall r, In r df -> District r <> d) -> select df d lo hi = [].
Proof.
  intros H. unfold select.
  induction df as [|r rest IH]; simpl; [reflexivity|].
  assert (E : mask d lo hi r = false).
  { unfold mask. destruct (value_eqb (District r) d) eqn:E; [|reflexivity].
    exfalso. apply (H r (or_introl eq_refl)).
    destruct (District r), d; simpl in E; try discriminate.
    apply String.eqb_eq in E. now subst. }
  rewrite E. apply IH. intros r' Hr'. apply H. now right.
Qed.

(** What the body returns when the filter selects nothing. *)
Lemma body_no_rows df d (lo hi : Z) :
  select df d lo hi = [] ->
  update_dashboard_body centroid df d [lo; hi] =
  Ok {| table_data := [];
        table_columns := columns;
        geojson_features := [];
        marker_layer := [];
        bar_fig := Some {| bar_title := (lo, hi); bars := []; annotations := [] |};
        trend_fig := Some [];
        summary_stats :=
          [ {| card_title := "Total Cases"; card_number := of_Z 0 |};
            {| card_title := "Monthly Average"; card_number := NaN |};
            {| card_title := "Period Growth"; card_number := of_Z 0 |} ] |}.
Proof.
  intros E. unfold update_dashboard_body. simpl. rewrite E. reflexivity.
Qed.

(** The shape of a normal return. *)
Lemma body_Ok_inv df d (year_range : list Z) (out : response G) :
  update_dashboard_body centroid df d year_range = Ok out ->
  exists lo hi rest markers,
    year_range = lo :: hi :: rest
    /\ make_markers centroid (select df d lo hi) (aggregate (select df d lo hi))
       = Ok markers
    /\ table_data out = aggregate (select df d lo hi)
    /\ geojson_features out = map geometry (select df d lo hi)
    /\ marker_layer out = markers
    /\ bar_fig out =
       Some {| bar_title := (lo, hi);
               bars := map (fun row => (row_facility_name row, Total_Cases row))
                           (aggregate (select df d lo hi));
               annotations := flat_map (make_annotation (select df d lo hi))
                                       (aggregate (select df d lo hi)) |}
    /\ trend_fig out = Some (trend (monthly (select df d lo hi)))
    /\ summary_stats out =
       [ {| card_title := "Total Cases";
            card_number := of_Z (agg_sum (cases_of (select df d lo hi))) |};
         {| card_title := "Monthly Average";
            card_number := zmean (map snd (monthly (select df d lo hi))) |};
         {| card_title := "Period Growth";
            card_number := growth_rate (monthly (select df d lo hi)) |} ].
Proof.
  unfold update_dashboard_body.
  destruct year_range as [|lo [|hi rest]]; simpl; try discriminate.
  destruct (make_markers centroid (select df d lo hi)
              (aggregate (select df d lo hi))) as [ms|e] eqn:E;
    simpl; [|discriminate].
  intros [= <-]. exists lo, hi, rest, ms. simpl. repeat split; auto.
Qed.


(** ** Per-facility aggregation *)

Lemma value_eqb_true (a b : value) :
  value_eqb a b = true <-> exists s, a = Text s /\ b = Text s.
Proof.
  destruct a as [|x], b as [|y]; simpl;
    try (split; [discriminate|intros [s [H1 H2]]; discriminate]).
  rewrite String.eqb_eq. split.
  - intros ->. now exists y.
  - intros [s [[= ->] [= ->]]]. reflexivity.
Qed.

Lemma facility_has_key (k : string) r :
  has_key String.compare facility_key k r = value_eqb (facility_name r) (Text k).
Proof.
  unfold has_key, facility_key. destruct (facility_name r) as [|s]; simpl;
    [reflexivity|].
  destruct (String.compare s k) eqn:E.
  - apply string_cmp_eq in E. subst. now rewrite String.eqb_refl.
  - symmetry. apply String.eqb_neq. intros ->.
    assert (E' : String.compare k k = Eq) by now apply string_cmp_eq.
    congruence.
  - symmetry. apply String.eqb_neq. intros ->.
    assert (E' : String.compare k k = Eq) by now apply string_cmp_eq.
    congruence.
Qed.

Lemma facility_group (k : string) dd :
  filter (has_key String.compare facility_key k) dd = facility_rows dd k.
Proof. unfold facility_rows. apply filter_ext, facility_has_key. Qed.

Lemma facility_key_Some r (k : string) :
  facility_key r = Some k <-> facility_name r = Text k.
Proof.
  unfold facility_key. destruct (facility_name r); split; congruence.
Qed.

Lemma facility_rows_In dd (k : string) r :
  In r (facility_rows dd k) <-> In r dd /\ facility_name r = Text k.
Proof.
  unfold facility_rows. rewrite filter_In, value_eqb_true. split.
  - intros [H [s [H1 [= ->]]]]. auto.
  - intros [H H1]. split; [exact H|]. now exists k.
Qed.

(** The row of the aggregate table for facility [k]. *)
Lemma aggregate_In dd (row : agg_row) :
  In row (aggregate dd) <->
  (exists r, In r dd /\ facility_name r = Text (row_facility_name row))
  /\ Total_Cases row
     = of_Z (agg_sum (cases_of (facility_rows dd (row_facility_name row))))
  /\ Average_Cases row
     = round2 (agg_mean (cases_of (facility_rows dd (row_facility_name row))))
  /\ Maximum_Cases row
     = agg_max (cases_of (facility_rows dd (row_facility_name row))).
Proof.
  unfold aggregate. rewrite in_map_iff. split.
  - intros [[k g] [<- Hin]].
    apply (groupby_In _ string_cmp_eq) in Hin as [[r [Hr Hk]] ->].
    unfold round_row.
    cbn [row_facility_name Total_Cases Average_Cases Maximum_Cases fst snd].
    rewrite facility_group, round2_of_Z.
    split; [exists r; split; [exact Hr|now apply facility_key_Some]|].
    split; [reflexivity|]. split; [reflexivity|].
    unfold agg_max, zmax.
    destruct (dropna (cases_of (facility_rows dd k))); [reflexivity|].
    apply round2_of_Z.
  - intros [[r [Hr Hk]] [Ht [Ha Hm]]].
    exists (row_facility_name row, facility_rows dd (row_facility_name row)).
    split.
    + destruct row as [k t a m].
      cbn [row_facility_name Total_Cases Average_Cases Maximum_Cases fst snd] in *.
      subst t a m. unfold round_row.
      cbn [row_facility_name Total_Cases Average_Cases Maximum_Cases fst snd].
      rewrite round2_of_Z. f_equal.
      unfold agg_max, zmax.
      destruct (dropna (cases_of (facility_rows dd k))); [reflexivity|].
      apply round2_of_Z.
    + apply (groupby_In _ string_cmp_eq). rewrite facility_group.
      split; [|reflexivity]. exists r. split; [exact Hr|].
      now apply facility_key_Some.
Qed.

Lemma aggregate_names dd :
  map row_facility_name (aggregate dd)
  = sorted_unique String.compare (keys_of facility_key dd).
Proof.
  unfold aggregate. rewrite map_map. simpl.
  rewrite <- (groupby_keys String.compare facility_key dd).
  reflexivity.
Qed.

Lemma aggregate_NoDup dd : NoDup (map row_facility_name (aggregate dd)).
Proof.
  rewrite aggregate_names.
  apply (sorted_NoDup _ string_cmp_eq), sorted_unique_sorted.
  - exact string_cmp_eq.
  - exact String.compare_antisym.
  - exact string_cmp_trans.
Qed.

Lemma aggregate_sorted dd :
  StronglySorted (klt String.compare) (map row_facility_name (aggregate dd)).
Proof.
  rewrite aggregate_names. apply sorted_unique_sorted.
  - exact string_cmp_eq.
  - exact String.compare_antisym.
  - exact string_cmp_trans.
Qed.


(** ** Monthly series *)

Lemma month_has_key (k : Z * Z) r :
  has_key cmp_ym month_key k r = true <-> (Year r, Month r) = k.
Proof.
  rewrite (has_key_iff _ cmp_ym_eq). unfold month_key. split; congruence.
Qed.

Lemma month_rows_In dd (k : Z * Z) r :
  In r (month_rows dd k) <-> In r dd /\ Year r = fst k /\ Month r = snd k.
Proof.
  unfold month_rows. rewrite filter_In, month_has_key.
  destruct k as [y m]. simpl. split.
  - intros [H [= -> ->]]. auto.
  - intros [H [-> ->]]. auto.
Qed.

(** One bucket per month that has a row, in chronological order, holding
    the sum of the case counts of that month. *)
Lemma monthly_spec dd :
  StronglySorted (klt cmp_ym) (map fst (monthly dd))
  /\ forall (k : Z * Z) (v : Z),
       In (k, v) (monthly dd) <->
       (exists r, In r dd /\ Year r = fst k /\ Month r = snd k)
       /\ v = agg_sum (cases_of (month_rows dd k)).
Proof.
  unfold monthly. split.
  - rewrite map_map. simpl.
    rewrite <- (map_map fst (fun k => k)), map_id.
    apply groupby_sorted.
    + exact cmp_ym_eq.
    + exact cmp_ym_antisym.
    + exact cmp_ym_trans.
  - intros k v. rewrite in_map_iff. split.
    + intros [[k' g] [[= -> <-] Hin]].
      apply (groupby_In _ cmp_ym_eq) in Hin as [[r [Hr Hk]] ->].
      split; [|reflexivity]. exists r. split; [exact Hr|].
      unfold month_key in Hk. injection Hk as <-. auto.
    + intros [[r [Hr [Hy Hm]]] ->]. exists (k, month_rows dd k).
      split; [reflexivity|]. apply (groupby_In _ cmp_ym_eq).
      split; [|reflexivity]. exists r. split; [exact Hr|].
      unfold month_key. destruct k. simpl in *. congruence.
Qed.

(** ** Growth *)

Lemma iloc_back_1 (pre : list ((Z * Z) * Z)) (y : (Z * Z) * Z) :
  iloc_back 1 (pre ++ [y]) = snd y.
Proof.
  unfold iloc_back. rewrite length_app, map_app. simpl.
  replace (List.length pre + 1 - 1)%nat with (List.length (map snd pre) + 0)%nat
    by (rewrite length_map; lia).
  now rewrite app_nth2_plus.
Qed.

Lemma iloc_back_2 (pre : list ((Z * Z) * Z)) (x y : (Z * Z) * Z) :
  iloc_back 2 (pre ++ [x; y]) = snd x.
Proof.
  unfold iloc_back. rewrite length_app, map_app. simpl.
  replace (List.length pre + 2 - 2)%nat with (List.length (map snd pre) + 0)%nat
    by (rewrite length_map; lia).
  now rewrite app_nth2_plus.
Qed.

Lemma two_last {A : Type} (l : list A) :
  (2 <= List.length l)%nat -> exists pre x y, l = (pre ++ [x; y])%list.
Proof.
  intros H. rewrite <- (rev_involutive l) in *. rewrite length_rev in H.
  destruct (rev l) as [|y [|x pre]]; simpl in H; try lia.
  exists (rev pre), x, y. simpl. now rewrite <- !app_assoc.
Qed.

Lemma first_last {A : Type} (l : list A) :
  (2 <= List.length l)%nat -> exists x mid y, l = x :: (mid ++ [y])%list.
Proof.
  intros H. destruct (two_last l H) as (pre & x & y & ->).
  destruct pre as [|a pre].
  - now exists x, [], y.
  - exists a, (pre ++ [x])%list, y. simpl. now rewrite <- app_assoc.
Qed.

Lemma is_zero_inject_Z (z : Z) : is_zero (inject_Z z) = (z =? 0).
Proof. reflexivity. Qed.

Lemma is_neg_inject_Z (z : Z) : is_neg (inject_Z z) = (z <? 0).
Proof. reflexivity. Qed.

(** The percent change of [b] against a non-zero base [a]. *)
Lemma percent_change (a b : Z) :
  a <> 0 ->
  exists q, fmul (fdiv (of_Z (b - a)) (of_Z a)) (of_Z 100) = Fin q
    /\ (q == inject_Z (b - a) / inject_Z a * 100)%Q.
Proof.
  intros Ha. unfold fdiv, fmul, of_Z.
  rewrite is_zero_inject_Z. apply Z.eqb_neq in Ha. rewrite Ha.
  eexists. split; [reflexivity|].
  rewrite !Qred_correct. reflexivity.
Qed.

(** The percent change against a zero base is not a number. *)
Lemma percent_change_zero (b : Z) :
  fmul (fdiv (of_Z (b - 0)) (of_Z 0)) (of_Z 100)
  = if b =? 0 then NaN else if b <? 0 then NInf else PInf.
Proof.
  rewrite Z.sub_0_r. unfold fdiv, fmul, of_Z.
  rewrite !is_zero_inject_Z, is_neg_inject_Z. simpl.
  destruct (b =? 0); [reflexivity|]. destruct (b <? 0); reflexivity.
Qed.

Lemma growth_expr_finite (l p : Z) : is_finite (growth_expr l p) = true.
Proof.
  unfold growth_expr. destruct (p =? 0) eqn:E; cbn [negb]; [reflexivity|].
  apply Z.eqb_neq in E. destruct (percent_change p l E) as [q [Hq _]].
  now rewrite Hq.
Qed.


(** ** Markers and annotations *)

Lemma mom_growth_few (fd : list (joined G)) :
  (List.length (monthly fd) < 2)%nat -> mom_growth fd = of_Z 0.
Proof.
  intros H. unfold mom_growth.
  destruct (1 <? List.length (monthly fd))%nat eqn:E; [|reflexivity].
  apply Nat.ltb_lt in E. lia.
Qed.

Lemma mom_growth_two (fd : list (joined G)) pre (x y : (Z * Z) * Z) :
  monthly fd = (pre ++ [x; y])%list ->
  mom_growth fd = growth_expr (snd y) (snd x).
Proof.
  intros H. unfold mom_growth. rewrite H.
  replace (1 <? List.length (pre ++ [x; y]))%nat with true
    by (symmetry; apply Nat.ltb_lt; rewrite length_app; simpl; lia).
  rewrite iloc_back_2.
  change (pre ++ [x; y])%list with (pre ++ [x] ++ [y])%list.
  now rewrite app_assoc, iloc_back_1.
Qed.

Lemma mom_growth_finite (fd : list (joined G)) :
  is_finite (mom_growth fd) = true.
Proof.
  unfold mom_growth. destruct (1 <? List.length (monthly fd))%nat;
    [apply growth_expr_finite|reflexivity].
Qed.

Lemma bar_growth_marker (fd : list (joined G)) (g : fnum) :
  bar_growth fd = Some g -> mom_growth fd = g.
Proof.
  unfold bar_growth, mom_growth.
  destruct (1 <? List.length (monthly fd))%nat; [|discriminate].
  now intros [= <-].
Qed.

Lemma bar_growth_Some (fd : list (joined G)) :
  (2 <= List.length (monthly fd))%nat -> bar_growth fd = Some (mom_growth fd).
Proof.
  intros H. unfold bar_growth, mom_growth.
  replace (1 <? List.length (monthly fd))%nat with true
    by (symmetry; apply Nat.ltb_lt; lia).
  reflexivity.
Qed.

Lemma bar_growth_None (fd : list (joined G)) :
  (List.length (monthly fd) < 2)%nat -> bar_growth fd = None.
Proof.
  intros H. unfold bar_growth.
  destruct (1 <? List.length (monthly fd))%nat eqn:E; [|reflexivity].
  apply Nat.ltb_lt in E. lia.
Qed.

Lemma make_marker_Ok dd (row : agg_row) (ms : list marker) :
  make_marker centroid dd row = Ok ms ->
  ms = [] /\ facility_rows dd (row_facility_name row) = []
  \/ exists m, ms = [m]
       /\ card_facility m = row_facility_name row
       /\ card_total m = Total_Cases row
       /\ card_average m = Average_Cases row
       /\ card_maximum m = Maximum_Cases row
       /\ card_growth m = mom_growth (facility_rows dd (row_facility_name row))
       /\ card_color m = growth_color (card_growth m).
Proof.
  unfold make_marker.
  destruct (facility_rows dd (row_facility_name row)) as [|first rest] eqn:E.
  - intros [= <-]. now left.
  - destruct (geometry first); [|discriminate].
    intros [= <-]. right. eexists. split; [reflexivity|]. simpl. tauto.
Qed.

Lemma make_markers_In dd (rows : list agg_row) (ms : list marker) :
  make_markers centroid dd rows = Ok ms ->
  forall m, In m ms <->
    exists row, In row rows /\ make_marker centroid dd row = Ok [m].
Proof.
  revert ms. induction rows as [|row rest IH]; simpl; intros ms.
  - intros [= <-] m. split; [intros []|intros [r [[] _]]].
  - destruct (make_marker centroid dd row) as [m1|e] eqn:E1; simpl;
      [|discriminate].
    destruct (make_markers centroid dd rest) as [m2|e] eqn:E2; simpl;
      [|discriminate].
    intros [= <-] m. rewrite in_app_iff, (IH m2 eq_refl m). split.
    + intros [Hm|[r [Hr Hk]]].
      * exists row. split; [now left|].
        destruct (make_marker_Ok _ _ _ E1) as [[-> _]|[m' [-> _]]];
          [destruct Hm|].
        destruct Hm as [->|[]]. exact E1.
      * exists r. split; [now right|exact Hk].
    + intros [r [[<-|Hr] Hk]].
      * left. rewrite Hk in E1. injection E1 as <-. now left.
      * right. eauto.
Qed.

(** Every facility of the table gets a marker when the loop completes. *)
Lemma make_markers_total dd (ms : list marker) (row : agg_row) :
  make_markers centroid dd (aggregate dd) = Ok ms ->
  In row (aggregate dd) ->
  exists m, In m ms /\ make_marker centroid dd row = Ok [m].
Proof.
  intros Hms Hrow.
  assert (Hne : facility_rows dd (row_facility_name row) <> []).
  { apply aggregate_In in Hrow as [[r [Hr Hk]] _].
    intros E. assert (Hin : In r (facility_rows dd (row_facility_name row)))
      by now apply facility_rows_In.
    rewrite E in Hin. destruct Hin. }
  assert (Hok : exists m, make_marker centroid dd row = Ok [m]).
  { revert ms Hms Hrow.
    induction (aggregate dd) as [|row' rest IH]; simpl; intros ms Hms Hin;
      [destruct Hin|destruct Hin as [->|Hin]].
    - destruct (make_marker centroid dd row) as [m1|e] eqn:E1; simpl in Hms;
        [|discriminate].
      destruct (make_marker_Ok _ _ _ E1) as [[_ Hnil]|[m [-> _]]];
        [contradiction|eauto].
    - destruct (make_marker centroid dd row') as [m1|e]; simpl in Hms;
        [|discriminate].
      destruct (make_markers centroid dd rest) as [m2|e]; simpl in Hms;
        [|discriminate].
      eapply IH; eauto. }
  destruct Hok as [m Hm]. exists m. split; [|exact Hm].
  apply (make_markers_In _ _ _ Hms). eauto.
Qed.

Lemma make_annotation_In dd (row : agg_row) (a : annotation) :
  In a (make_annotation dd row) <->
  exists g, bar_growth (facility_rows dd (row_facility_name row)) = Some g
    /\ a = {| ann_x := row_facility_name row;
              ann_y := Total_Cases row;
              arrow_color := growth_color g;
              arrow_up := fge0 g |}.
Proof.
  unfold make_annotation.
  destruct (bar_growth (facility_rows dd (row_facility_name row))) as [g|].
  - simpl. split.
    + intros [<-|[]]. eauto.
    + intros [g' [[= <-] ->]]. now left.
  - simpl. split; [intros []|intros [g [H _]]; discriminate].
Qed.

End EngineFacts.

(** ** Claims on the filter and aggregation engine *)

Lemma alpha_scenario (G : Type) (centroid : G -> Q * Q) (y : Z) (g : G) :
  let out := update_dashboard centroid (Scenario.alpha_table y g)
               (Text "East") [y; y] in
  table_data out =
    [ {| row_facility_name := "Alpha";
         Total_Cases := of_Z 30;
         Average_Cases := of_Z 15;
         Maximum_Cases := of_Z 20 |} ]
  /\ map card_growth (marker_layer out) = [of_Z 100].
Proof.
  unfold update_dashboard, update_dashboard_body, Scenario.alpha_table.
  cbn. unfold mask. cbn. rewrite !Z.leb_refl. cbn.
  split; [reflexivity|].
  unfold mom_growth, monthly, groupby. cbn. unfold cmp_ym. cbn.
  rewrite !Z.compare_refl. cbn. unfold has_key, cmp_ym. cbn.
  rewrite !Z.compare_refl. cbn.
  reflexivity.
Qed.



(** C5: the filter keeps exactly the records of the selected district whose
    year lies in the inclusive range; a range [y, y] keeps only records of
    year [y]; an inverted range selects nothing and the callback returns
    normally with an empty table. *)
Theorem year_filter_inclusive (G : Type) (centroid : G -> Q * Q)
    (df : list (joined G)) (d : value) (lo hi : Z) :
  (forall r, In r (select df d lo hi) <->
     In r df /\ (exists s, District r = Text s /\ d = Text s)
     /\ lo <= Year r <= hi)
  /\ (lo = hi -> forall r, In r (select df d lo hi) -> Year r = hi)
  /\ (forall out, update_dashboard_body centroid df d [lo; hi] = Ok out ->
        table_data out = aggregate (select df d lo hi)
        /\ geojson_features out = map geometry (select df d lo hi))
  /\ (hi < lo ->
      select df d lo hi = []
      /\ exists out,
           update_dashboard_body centroid df d [lo; hi] = Ok out
           /\ update_dashboard centroid df d [lo; hi] = out
           /\ table_data out = []).
Proof.
  split; [|split; [|split]].
  - intros r. rewrite select_In, value_eqb_true. tauto.
  - intros -> r Hr. apply select_In in Hr. lia.
  - intros out Hok.
    apply body_Ok_inv in Hok
      as (lo' & hi' & rest & ms & [= <- <- <-] & _ & Ht & Hg & _).
    auto.
  - intros H. pose proof (select_inverted df d lo hi H) as E.
    split; [exact E|]. eexists. unfold update_dashboard.
    rewrite (body_no_rows centroid df d lo hi E).
    split; [reflexivity|]. split; reflexivity.
Qed.

Lemma year_filter_inclusive_witness :
  exists out,
    update_dashboard_body (fun g : nat => (inject_Z (Z.of_nat g), 0%Q))
      (Scenario.alpha_table 2024 7%nat) (Text "East") [2025; 2024] = Ok out
    /\ table_data out = [].
Proof.
  destruct (proj2 (proj2 (proj2
              (year_filter_inclusive nat
                 (fun g : nat => (inject_Z (Z.of_nat g), 0%Q))
                 (Scenario.alpha_table 2024 7%nat) (Text "East") 2025 2024))))
    as [_ [out [H1 [_ H2]]]]; [reflexivity|].
  exists out. split; [exact H1|exact H2].
Defined.



Lemma growth_rate_few (ms : list ((Z * Z) * Z)) :
  (List.length ms < 2)%nat -> growth_rate ms = of_Z 0.
Proof.
  intros H. unfold growth_rate.
  destruct (2 <=? List.length ms)%nat eqn:E; [|reflexivity].
  apply Nat.leb_le in E. lia.
Qed.

Lemma growth_rate_ends (k0 k1 : Z * Z) (f l : Z) (mid : list ((Z * Z) * Z)) :
  growth_rate ((k0, f) :: mid ++ [(k1, l)])
  = fmul (fdiv (of_Z (l - f)) (of_Z f)) (of_Z 100).
Proof.
  unfold growth_rate.
  replace (2 <=? List.length ((k0, f) :: mid ++ [(k1, l)]))%nat with true
    by (symmetry; apply Nat.leb_le; simpl; rewrite length_app; simpl; lia).
  rewrite app_comm_cons, iloc_back_1. reflexivity.
Qed.



(** C8: whenever the body of the callback raises, the callback returns the
    empty response: no rows, no columns, an empty feature collection, no
    markers, empty figures and no summary cards. *)
Theorem exception_gives_empty_response (G : Type) (centroid : G -> Q * Q)
    (df : list (joined G)) (d : value) (year_range : list Z) (e : exn) :
  update_dashboard_body centroid df d year_range = Err e ->
  update_dashboard centroid df d year_range = empty_response
  /\ table_data (update_dashboard centroid df d year_range) = []
  /\ geojson_features (update_dashboard centroid df d year_range) = []
  /\ marker_layer (update_dashboard centroid df d year_range) = []
  /\ bar_fig (update_dashboard centroid df d year_range) = None
  /\ trend_fig (update_dashboard centroid df d year_range) = None
  /\ summary_stats (update_dashboard centroid df d year_range) = [].
Proof.
  intros H. unfold update_dashboard. rewrite H. repeat split.
Qed.

Lemma exception_gives_empty_response_witness :
  let df := Loader.load_data
              [mkRegion (Text "East") (Text "Alpha") (@None nat)]
              [mkCase (Text "Alpha") (mkDate 2024 1 15) (Some 10)] in
  update_dashboard_body (fun g : nat => (inject_Z (Z.of_nat g), 0%Q))
    df (Text "East") [2024; 2024] = Err AttributeError
  /\ update_dashboard (fun g : nat => (inject_Z (Z.of_nat g), 0%Q))
       df (Text "East") [2024; 2024] = empty_response.
Proof.
  intros df. split; [reflexivity|].
  apply (exception_gives_empty_response nat _ df (Text "East") [2024; 2024]
           AttributeError).
  reflexivity.
Defined.

Example short_year_range_raises :
  update_dashboard_body (fun g : nat => (inject_Z (Z.of_nat g), 0%Q))
    (Scenario.alpha_table 2024 7%nat) (Text "East") [2024] = Err IndexError.
Proof. reflexivity. Qed.

(** C9: for a district that no record of the table carries, and every year
    range, the callback returns normally with no rows, an empty feature
    collection, no markers, and the summary total 0, average undefined (NaN)
    and growth 0. *)
Theorem unknown_district_empty (G : Type) (centroid : G -> Q * Q)
    (df : list (joined G)) (d : string) (lo hi : Z) :
  (forall r, In r df -> District r <> Text d) ->
  exists out,
    update_dashboard_body centroid df (Text d) [lo; hi] = Ok out
    /\ update_dashboard centroid df (Text d) [lo; hi] = out
    /\ table_data out = []
    /\ geojson_features out = []
    /\ marker_layer out = []
    /\ summary_stats out =
       [ {| card_title := "Total Cases"; card_number := of_Z 0 |};
         {| card_title := "Monthly Average"; card_number := NaN |};
         {| card_title := "Period Growth"; card_number := of_Z 0 |} ].
Proof.
  intros H. pose proof (select_unknown df (Text d) lo hi H) as E.
  eexists. unfold update_dashboard.
  rewrite (body_no_rows centroid df (Text d) lo hi E).
  repeat split.
Qed.

Lemma unknown_district_empty_witness :
  exists out,
    update_dashboard_body (fun g : nat => (inject_Z (Z.of_nat g), 0%Q))
      (Scenario.alpha_table 2024 7%nat) (Text "Nonexistent") [2020; 2030]
    = Ok out
    /\ table_data out = [] /\ marker_layer out = [].
Proof.
  destruct (unknown_district_empty nat
              (fun g : nat => (inject_Z (Z.of_nat g), 0%Q))
              (Scenario.alpha_table 2024 7%nat) "Nonexistent" 2020 2030)
    as (out & H1 & _ & H2 & _ & H3 & _).
  - intros r [<-|[<-|[]]]; discriminate.
  - exists out. auto.
Defined.

(** C10: the growth the bar loop computes for a facility, when it computes
    one, is the growth the marker loop computes for it; it computes one
    exactly for a facility with at least two monthly buckets (with fewer,
    the marker shows 0 and the bar has no arrow); on a normal return
    every facility row has a marker, every arrow of the bar chart belongs to
    a facility whose marker carries the same growth and the same colour,
    and a facility with at least two monthly buckets has an arrow. *)
Theorem marker_and_bar_growth_agree (G : Type) (centroid : G -> Q * Q) :
  (forall (fd : list (joined G)) (g : fnum),
     bar_growth fd = Some g -> mom_growth fd = g)
  /\ (forall fd : list (joined G),
        (2 <= List.length (monthly fd))%nat ->
        bar_growth fd = Some (mom_growth fd))
  /\ (forall fd : list (joined G),
        (List.length (monthly fd) < 2)%nat ->
        bar_growth fd = None /\ mom_growth fd = of_Z 0)
  /\ (forall (df : list (joined G)) (d : value) (year_range : list Z)
             (out : response G),
        update_dashboard_body centroid df d year_range = Ok out ->
        exists lo hi rest bar,
          year_range = lo :: hi :: rest
          /\ bar_fig out = Some bar
          /\ (forall row, In row (table_data out) ->
                exists m, In m (marker_layer out)
                  /\ card_facility m = row_facility_name row
                  /\ (forall g,
                        bar_growth (facility_rows (select df d lo hi)
                                                  (row_facility_name row))
                        = Some g ->
                        card_growth m = g
                        /\ In {| ann_x := row_facility_name row;
                                 ann_y := Total_Cases row;
                                 arrow_color := card_color m;
                                 arrow_up := fge0 (card_growth m) |}
                              (annotations bar)))
          /\ (forall a, In a (annotations bar) ->
                exists m g, In m (marker_layer out)
                  /\ card_facility m = ann_x a
                  /\ bar_growth (facility_rows (select df d lo hi) (ann_x a))
                     = Some g
                  /\ card_growth m = g
                  /\ card_color m = arrow_color a
                  /\ arrow_up a = fge0 g)).
Proof.
  split; [intros fd g; apply bar_growth_marker|].
  split; [intros fd; apply bar_growth_Some|].
  split; [intros fd H; split;
          [now apply bar_growth_None|now apply mom_growth_few]|].
  intros df d year_range out Hok.
  apply body_Ok_inv in Hok
    as (lo & hi & rest & ms & -> & Hms & Ht & _ & Hm & Hb & _).
  exists lo, hi, rest. eexists.
  split; [reflexivity|]. split; [exact Hb|].
  rewrite Ht, Hm. cbn [annotations]. split.
  - intros row Hrow.
    destruct (make_markers_total centroid _ _ _ Hms Hrow) as [m [Hin Hk]].
    exists m. split; [exact Hin|].
    destruct (make_marker_Ok centroid _ _ _ Hk)
      as [[H _]|[m' [[= <-] (Hf & _ & _ & _ & Hgr & Hc)]]]; [discriminate|].
    split; [exact Hf|]. intros g Hg.
    pose proof (bar_growth_marker _ _ Hg) as Hmg.
    split; [congruence|].
    apply in_flat_map. exists row. split; [exact Hrow|].
    apply make_annotation_In. exists g. split; [exact Hg|].
    rewrite Hc, Hgr, Hmg. reflexivity.
  - intros a Ha. apply in_flat_map in Ha as [row [Hrow Ha]].
    apply make_annotation_In in Ha as [g [Hg ->]]. cbn.
    destruct (make_markers_total centroid _ _ _ Hms Hrow) as [m [Hin Hk]].
    exists m, g. split; [exact Hin|].
    destruct (make_marker_Ok centroid _ _ _ Hk)
      as [[H _]|[m' [[= <-] (Hf & _ & _ & _ & Hgr & Hc)]]]; [discriminate|].
    pose proof (bar_growth_marker _ _ Hg) as Hmg.
    repeat split; try assumption; congruence.
Qed.

Lemma marker_and_bar_growth_agree_witness :
  bar_growth (Scenario.alpha_table 2024 7%nat) = Some (of_Z 100)
  /\ mom_growth (Scenario.alpha_table 2024 7%nat) = of_Z 100.
Proof.
  split; [reflexivity|].
  apply (proj1 (marker_and_bar_growth_agree nat (fun _ => (0%Q, 0%Q)))).
  reflexivity.
Defined.

(** * Further properties *)

(** ** The name normaliser on related names *)

Section NormalizerMore.

Lemma isspace_lower_char (c : ascii) : isspace (lower_char c) = isspace c.
Proof. destruct c as [[] [] [] [] [] [] [] []]; reflexivity. Qed.

Lemma blank_lower_char (c : ascii) :
  Ascii.eqb (lower_char c) " " = Ascii.eqb c " ".
Proof. destruct c as [[] [] [] [] [] [] [] []]; reflexivity. Qed.

Lemma lower_char_idem (c : ascii) : lower_char (lower_char c) = lower_char c.
Proof. destruct c as [[] [] [] [] [] [] [] []]; reflexivity. Qed.

Lemma lower_idem (s : string) : lower (lower s) = lower s.
Proof.
  induction s as [|c r IH]; simpl; [reflexivity|].
  now rewrite lower_char_idem, IH.
Qed.

Lemma lower_app (a b : string) : lower (a ++ b) = lower a ++ lower b.
Proof. induction a as [|c r IH]; simpl; [reflexivity|]. now rewrite IH. Qed.

Lemma lstrip_lower (s : string) : lstrip (lower s) = lower (lstrip s).
Proof.
  induction s as [|c r IH]; simpl; [reflexivity|].
  rewrite isspace_lower_char. destruct (isspace c); [exact IH|reflexivity].
Qed.

Lemma rstrip_lower (s : string) : rstrip (lower s) = lower (rstrip s).
Proof.
  induction s as [|c r IH]; simpl; [reflexivity|].
  rewrite IH, isspace_lower_char.
  destruct (rstrip r); simpl; [destruct (isspace c)|]; reflexivity.
Qed.

Lemma before_blank_lower (s : string) :
  before_blank (lower s) = lower (before_blank s).
Proof.
  induction s as [|c r IH]; simpl; [reflexivity|].
  rewrite blank_lower_char. destruct (Ascii.eqb c " "); simpl;
    [reflexivity|now rewrite IH].
Qed.

Lemma clean_name_lower (s : string) :
  clean_name (Text (lower s)) = clean_name (Text s).
Proof.
  simpl. rewrite !split_head. unfold strip.
  now rewrite lstrip_lower, rstrip_lower, before_blank_lower, lower_idem.
Qed.

(** X1: names that differ only in letter case have the same key. *)
Theorem clean_name_case_insensitive (a b : string) :
  lower a = lower b -> clean_name (Text a) = clean_name (Text b).
Proof.
  intros H. rewrite <- (clean_name_lower a), <- (clean_name_lower b).
  now rewrite H.
Qed.

Lemma clean_name_case_insensitive_witness :
  lower "KIGALI Central" = lower "kigali central"
  /\ clean_name (Text "KIGALI Central") = clean_name (Text "kigali central").
Proof.
  split; [reflexivity|].
  apply clean_name_case_insensitive. reflexivity.
Defined.

Lemma before_blank_no_blank (s : string) (c : ascii) :
  In c (list_ascii_of_string (before_blank s)) -> c <> " "%char.
Proof.
  induction s as [|a r IH]; simpl; [intros []|].
  destruct (Ascii.eqb a " ") eqn:E; simpl; [intros []|].
  intros [<-|H]; [|now apply IH].
  now apply Ascii.eqb_neq.
Qed.

Lemma lower_In (s : string) (c : ascii) :
  In c (list_ascii_of_string (lower s)) ->
  exists a, In a (list_ascii_of_string s) /\ c = lower_char a.
Proof.
  induction s as [|a r IH]; simpl; [intros []|].
  intros [<-|H]; [exists a; auto|].
  destruct (IH H) as [a' [H1 H2]]. exists a'. auto.
Qed.

(** X2: the key holds no space character, does not start with white space, and
    is in lower case already. *)
Theorem clean_name_key_shape (v : value) :
  (forall c, In c (list_ascii_of_string (clean_name v)) -> c <> " "%char)
  /\ match clean_name v with
     | EmptyString => True
     | String c _ => isspace c = false
     end
  /\ lower (clean_name v) = clean_name v.
Proof.
  destruct v as [|s]; simpl; [repeat split; intros c []|].
  rewrite split_head. split; [|split].
  - intros c Hc. apply lower_In in Hc as [a [Ha ->]].
    apply before_blank_no_blank in Ha. intros E. apply Ha.
    apply Ascii.eqb_eq. rewrite <- blank_lower_char. now apply Ascii.eqb_eq.
  - pose proof (strip_head s) as Hh. destruct (strip s) as [|c r]; simpl;
      [exact I|].
    destruct (Ascii.eqb c " "); simpl; [exact I|].
    now rewrite isspace_lower_char.
  - apply lower_idem.
Qed.

Lemma rstrip_cons (c : ascii) (r : string) :
  isspace c = false -> rstrip (String c r) = String c (rstrip r).
Proof.
  intros E. simpl. destruct (rstrip r); [now rewrite E|reflexivity].
Qed.

Lemma rstrip_app_no_white (t s : string) :
  no_white t = true -> rstrip (t ++ s) = t ++ rstrip s.
Proof.
  induction t as [|c r IH]; [reflexivity|].
  intros H. simpl in H. apply andb_prop in H as [Hc Hr].
  apply negb_true_iff in Hc.
  change (String c r ++ s) with (String c (r ++ s)).
  rewrite (rstrip_cons c _ Hc), (IH Hr). reflexivity.
Qed.

Lemma before_blank_app (t s : string) :
  no_white t = true ->
  match s with EmptyString => True | String c _ => c = " "%char end ->
  before_blank (t ++ s) = t.
Proof.
  intros Ht Hs. induction t as [|c r IH]; simpl.
  - destruct s as [|a s']; [reflexivity|]. subst a. reflexivity.
  - simpl in Ht. apply andb_prop in Ht as [Hc Hr].
    destruct (Ascii.eqb c " ") eqn:E.
    + apply Ascii.eqb_eq in E. subst c. discriminate Hc.
    + now rewrite (IH Hr).
Qed.

Lemma rstrip_blank_head (rest : string) :
  match rstrip (String " " rest) with
  | EmptyString => True
  | String c _ => c = " "%char
  end.
Proof. simpl. destruct (rstrip rest); simpl; auto. Qed.

Lemma append_nil_r (t : string) : t ++ "" = t.
Proof. induction t as [|c r IH]; simpl; [reflexivity|now rewrite IH]. Qed.

Lemma clean_name_token_then (t s : string) :
  t <> "" -> no_white t = true ->
  match s with EmptyString => True | String c _ => c = " "%char end ->
  clean_name (Text (t ++ s)) = lower t.
Proof.
  intros Hne Ht Hs. simpl. rewrite split_head. f_equal. unfold strip.
  assert (El : lstrip (t ++ s) = t ++ s).
  { destruct t as [|c r]; [now contradiction Hne|]. simpl in *.
    apply andb_prop in Ht as [Hc _]. apply negb_true_iff in Hc.
    now rewrite Hc. }
  rewrite El, (rstrip_app_no_white t s Ht).
  apply before_blank_app; [exact Ht|].
  destruct s as [|c rest]; [exact I|]. subst c. apply rstrip_blank_head.
Qed.

(** X3: only the first word of a name counts: a name that starts with the word
    [t] followed by a space has the key of [t] alone, so any two names with
    the same first word have the same key. *)
Theorem clean_name_first_word (t rest : string) :
  t <> "" -> no_white t = true ->
  clean_name (Text (t ++ " " ++ rest)) = lower t
  /\ clean_name (Text t) = lower t.
Proof.
  intros Hne Ht. split.
  - now apply clean_name_token_then.
  - rewrite <- (append_nil_r t) at 1. now apply clean_name_token_then.
Qed.

Lemma clean_name_first_word_witness :
  clean_name (Text ("Gahini" ++ " " ++ "Hospital")) = lower "Gahini"
  /\ clean_name (Text ("Gahini" ++ " " ++ "Health Centre")) = lower "Gahini".
Proof.
  split.
  - apply (clean_name_first_word "Gahini" "Hospital");
      [discriminate|reflexivity].
  - apply (clean_name_first_word "Gahini" "Health Centre");
      [discriminate|reflexivity].
Defined.

Lemma all_space_app (a b : string) :
  all_space (a ++ b) = all_space a && all_space b.
Proof.
  induction a as [|c r IH]; simpl; [reflexivity|].
  now rewrite IH, andb_assoc.
Qed.

Lemma lstrip_app_space (ws s : string) :
  all_space ws = true -> lstrip (ws ++ s) = lstrip s.
Proof.
  induction ws as [|c r IH]; simpl; [reflexivity|].
  intros H. apply andb_prop in H as [Hc Hr]. rewrite Hc. now apply IH.
Qed.

Lemma rstrip_all_space (ws : string) : all_space ws = true -> rstrip ws = "".
Proof.
  induction ws as [|c r IH]; simpl; [reflexivity|].
  intros H. apply andb_prop in H as [Hc Hr]. now rewrite (IH Hr), Hc.
Qed.

Lemma rstrip_app_space (s ws : string) :
  all_space ws = true -> rstrip (s ++ ws) = rstrip s.
Proof.
  intros H. induction s as [|c r IH]; simpl.
  - now apply rstrip_all_space.
  - now rewrite IH.
Qed.

Lemma lstrip_app (s w : string) :
  lstrip s <> "" -> lstrip (s ++ w) = lstrip s ++ w.
Proof.
  induction s as [|c r IH]; simpl; [intros H; now contradiction H|].
  destruct (isspace c); [exact IH|reflexivity].
Qed.

Lemma strip_app_space (s ws : string) :
  all_space ws = true -> strip (s ++ ws) = strip s.
Proof.
  intros H. unfold strip.
  destruct (lstrip s) as [|c r] eqn:E.
  - pose proof (lstrip_head s) as Hs. rewrite E in Hs.
    assert (Ha : all_space (s ++ ws) = true)
      by now rewrite all_space_app, Hs, H.
    pose proof (lstrip_head (s ++ ws)) as Hl.
    destruct (lstrip (s ++ ws)) as [|c' r']; [reflexivity|].
    destruct Hl as [_ Hl]. congruence.
  - rewrite lstrip_app by (rewrite E; discriminate).
    rewrite E. now apply rstrip_app_space.
Qed.

(** X4: white space around a name does not change its key. *)
Theorem clean_name_ignores_padding (ws1 s ws2 : string) :
  all_space ws1 = true -> all_space ws2 = true ->
  clean_name (Text (ws1 ++ s ++ ws2)) = clean_name (Text s).
Proof.
  intros H1 H2. simpl. do 2 f_equal. f_equal. unfold strip.
  rewrite (lstrip_app_space ws1 _ H1).
  exact (strip_app_space s ws2 H2).
Qed.

Lemma clean_name_ignores_padding_witness :
  clean_name (Text (("  " ++ String "009" "") ++ "Rukara HC" ++ " ")) =
  clean_name (Text "Rukara HC").
Proof.
  apply clean_name_ignores_padding; reflexivity.
Defined.

End NormalizerMore.

(** ** The joined table *)

Section LoaderMore.
Context {G : Type}.
Implicit Types (shp : list (region G)) (csv : list case_report).

Lemma list_sum_add {A : Type} (f g : A -> nat) (l : list A) :
  list_sum (map (fun x => (f x + g x)%nat) l)
  = (list_sum (map f l) + list_sum (map g l))%nat.
Proof. induction l as [|x r IH]; simpl; [reflexivity|]. rewrite IH. lia. Qed.

Lemma zsum_add {A : Type} (f g : A -> Z) (l : list A) :
  zsum (map (fun x => f x + g x) l) = zsum (map f l) + zsum (map g l).
Proof. induction l as [|x r IH]; simpl; [reflexivity|]. rewrite IH. lia. Qed.

Lemma zsum_app (a b : list Z) : zsum (a ++ b) = zsum a + zsum b.
Proof. induction a as [|x r IH]; simpl; [reflexivity|]. rewrite IH. lia. Qed.

Lemma dropna_app (a b : list (option Z)) :
  dropna (a ++ b) = (dropna a ++ dropna b)%list.
Proof.
  induction a as [|[x|] r IH]; simpl; [reflexivity| |exact IH].
  now rewrite IH.
Qed.

Lemma agg_sum_app (a b : list (joined G)) :
  agg_sum (cases_of (a ++ b))
  = agg_sum (cases_of a) + agg_sum (cases_of b).
Proof.
  unfold agg_sum, cases_of. now rewrite map_app, dropna_app, zsum_app.
Qed.

Lemma matches_length (a : region G) csv :
  List.length (Loader.matches a csv)
  = list_sum (map (fun c =>
                     if String.eqb (clean_name (ADM3_EN a))
                                   (clean_name (csv_facility_name c))
                     then 1%nat else 0%nat) csv).
Proof.
  unfold Loader.matches. induction csv as [|c r IH]; simpl; [reflexivity|].
  destruct (String.eqb _ _); simpl; now rewrite IH.
Qed.

Lemma matches_sum (a : region G) csv :
  agg_sum (cases_of (map (Loader.join_row a) (Loader.matches a csv)))
  = zsum (map (fun c =>
                 (if String.eqb (clean_name (ADM3_EN a))
                                (clean_name (csv_facility_name c))
                  then 1 else 0) * reported c) csv).
Proof.
  unfold Loader.matches, agg_sum, cases_of, reported.
  induction csv as [|c r IH]; [reflexivity|].
  cbn [filter map]. destruct (String.eqb _ _);
    cbn [map dropna zsum fold_right Malaria_cases_OPD Loader.join_row].
  - fold (zsum (map (fun c0 : case_report =>
                   (if String.eqb (clean_name (ADM3_EN a))
                                  (clean_name (csv_facility_name c0))
                    then 1 else 0)
                   * match csv_cases c0 with Some n => n | None => 0 end) r)).
    rewrite <- IH.
    destruct (csv_cases c); cbn [dropna zsum fold_right]; unfold zsum; lia.
  - fold (zsum (map (fun c0 : case_report =>
                   (if String.eqb (clean_name (ADM3_EN a))
                                  (clean_name (csv_facility_name c0))
                    then 1 else 0)
                   * match csv_cases c0 with Some n => n | None => 0 end) r)).
    rewrite <- IH. unfold zsum. lia.
Qed.

(** X5: a report is repeated once for every region that has its key: the
    joined table has as many rows as there are matching (region, report)
    pairs, and its case total counts every report once per matching
    region. *)
Theorem load_data_multiplies_reports shp csv :
  List.length (Loader.load_data shp csv)
  = list_sum (map (region_count shp) csv)
  /\ agg_sum (cases_of (Loader.load_data shp csv))
     = zsum (map (fun c => Z.of_nat (region_count shp c) * reported c) csv).
Proof.
  unfold Loader.load_data, Loader.merge, region_count.
  induction shp as [|a shp [IHl IHs]]; simpl.
  - split.
    + induction csv; simpl; auto.
    + induction csv; simpl; auto.
  - split.
    + rewrite length_app, length_map, IHl, matches_length.
      rewrite <- list_sum_add. f_equal. apply map_ext. intros c.
      destruct (String.eqb _ _); reflexivity.
    + rewrite agg_sum_app, IHs, matches_sum, <- zsum_add.
      f_equal. apply map_ext. intros c.
      destruct (String.eqb _ _); simpl List.length;
        rewrite ?Nat2Z.inj_succ; ring.
Qed.

End LoaderMore.

(** ** The wetland layer *)

Section WetlandFacts.
Context {G : Type} (to_crs : G -> G).
Import Wetlands.

Lemma notna_reproject (w : source_row G) :
  notna (reproject to_crs w) = notna w.
Proof. unfold notna, reproject. simpl. now destruct (src_geometry w). Qed.

Lemma filter_reproject (rows : list (source_row G)) :
  filter notna (map (reproject to_crs) rows)
  = map (reproject to_crs) (filter notna rows).
Proof.
  induction rows as [|w r IH]; simpl; [reflexivity|].
  rewrite notna_reproject. destruct (notna w); simpl; now rewrite IH.
Qed.


End WetlandFacts.

(** ** The filter controls *)

Section LayoutFacts.
Import Layout.

Lemma same_value_iff (a b : value) : same_value a b = true <-> a = b.
Proof.
  destruct a as [|x], b as [|y]; simpl; try (split; congruence).
  rewrite String.eqb_eq. split; congruence.
Qed.

Lemma existsb_same (v : value) (seen : list value) :
  existsb (same_value v) seen = true <-> In v seen.
Proof.
  rewrite existsb_exists. split.
  - intros [x [Hx E]]. apply same_value_iff in E. now subst.
  - intros H. exists v. split; [exact H|]. now apply same_value_iff.
Qed.

Lemma unique_from_In (seen vs : list value) (v : value) :
  In v (unique_from seen vs) <-> In v vs /\ ~ In v seen.
Proof.
  revert seen. induction vs as [|x r IH]; intros seen; simpl; [tauto|].
  destruct (existsb (same_value x) seen) eqn:E.
  - apply existsb_same in E. rewrite IH. split.
    + intros [H1 H2]. auto.
    + intros [[->|H1] H2]; [contradiction|auto].
  - assert (Hn : ~ In x seen).
    { intros H. apply existsb_same in H. congruence. }
    simpl. rewrite IH. simpl. split.
    + intros [<-|[H1 H2]]; [auto|]. split; [auto|]. intros H. apply H2. auto.
    + intros [[->|H1] H2]; [auto|].
      destruct (same_value x v) eqn:Exv.
      * apply same_value_iff in Exv. auto.
      * right. split; [exact H1|]. intros [->|H]; [|contradiction].
        assert (same_value v v = true) by now apply same_value_iff.
        congruence.
Qed.

Lemma unique_from_NoDup (seen vs : list value) : NoDup (unique_from seen vs).
Proof.
  revert seen. induction vs as [|x r IH]; intros seen; simpl; [constructor|].
  destruct (existsb (same_value x) seen); [apply IH|].
  constructor; [|apply IH].
  intros H. apply unique_from_In in H as [_ H]. apply H. now left.
Qed.

Lemma unique_In (vs : list value) (v : value) : In v (unique vs) <-> In v vs.
Proof. unfold unique. rewrite unique_from_In. simpl. tauto. Qed.

Lemma unique_head (v : value) (vs : list value) :
  exists rest, unique (v :: vs) = v :: rest.
Proof. unfold unique. simpl. eauto. Qed.

Lemma texts_In (vs : list value) (s : string) :
  In s (texts vs) <-> In (Text s) vs.
Proof.
  induction vs as [|[|x] r IH]; simpl; [tauto| |].
  - rewrite IH. split; [auto|]. intros [H|H]; [discriminate|exact H].
  - rewrite IH. split; intros [H|H]; auto; left; congruence.
Qed.

Lemma texts_NoDup (vs : list value) : NoDup vs -> NoDup (texts vs).
Proof.
  induction 1 as [|[|x] r Hn Hr IH]; simpl; [constructor|exact IH|].
  constructor; [|exact IH]. intros H. apply Hn. now apply texts_In.
Qed.

Lemma has_null_iff (vs : list value) : has_null vs = true <-> In Null vs.
Proof.
  unfold has_null. rewrite existsb_exists. split.
  - intros [[|x] [H E]]; [exact H|discriminate].
  - intros H. exists Null. auto.
Qed.

Lemma no_null_texts (vs : list value) :
  has_null vs = false -> map Text (texts vs) = vs.
Proof.
  induction vs as [|[|x] r IH]; simpl; [reflexivity|discriminate|].
  intros H. f_equal. apply IH. exact H.
Qed.

Lemma insert_sorted_In (s x : string) (l : list string) :
  In x (insert_sorted s l) <-> x = s \/ In x l.
Proof.
  induction l as [|h t IH]; simpl; [intuition|].
  destruct (String.compare s h); simpl; rewrite ?IH; intuition.
Qed.

Lemma sort_strings_In (x : string) (l : list string) :
  In x (sort_strings l) <-> In x l.
Proof.
  induction l as [|h t IH]; simpl; [tauto|].
  rewrite insert_sorted_In, IH. intuition.
Qed.

Lemma insert_sorted_strict (s : string) (l : list string) :
  ~ In s l ->
  StronglySorted (klt String.compare) l ->
  StronglySorted (klt String.compare) (insert_sorted s l).
Proof.
  intros Hn Hs. induction Hs as [|h t Hs IH Hf]; simpl.
  - repeat constructor.
  - destruct (String.compare s h) eqn:E.
    + apply string_cmp_eq in E. subst. exfalso. apply Hn. now left.
    + constructor; [now constructor|]. constructor; [exact E|].
      eapply Forall_impl; [|exact Hf]. intros a Ha.
      exact (string_cmp_trans _ _ _ E Ha).
    + constructor; [apply IH; intros H; apply Hn; now right|].
      apply Forall_forall. intros x Hx.
      apply insert_sorted_In in Hx as [->|Hx].
      * unfold klt. rewrite String.compare_antisym, E. reflexivity.
      * rewrite Forall_forall in Hf. now apply Hf.
Qed.

Lemma sort_strings_strict (l : list string) :
  NoDup l -> StronglySorted (klt String.compare) (sort_strings l).
Proof.
  induction 1 as [|h t Hn Hd IH]; simpl; [constructor|].
  apply insert_sorted_strict; [|exact IH].
  intros H. apply Hn. now apply sort_strings_In.
Qed.

Lemma fold_min_spec (y : Z) (ys : list Z) :
  In (fold_right Z.min y ys) (y :: ys)
  /\ forall z, In z (y :: ys) -> fold_right Z.min y ys <= z.
Proof.
  induction ys as [|a r [IH1 IH2]]; simpl.
  - split; [now left|]. intros z [<-|[]]. lia.
  - split.
    + destruct (Z.min_spec a (fold_right Z.min y r)) as [[_ ->]|[_ ->]].
      * right. now left.
      * destruct IH1 as [H|H]; [now left|right; now right].
    + intros z [<-|[<-|H]].
      * specialize (IH2 y (or_introl eq_refl)). lia.
      * lia.
      * specialize (IH2 z (or_intror H)). lia.
Qed.

Lemma fold_max_spec (y : Z) (ys : list Z) :
  In (fold_right Z.max y ys) (y :: ys)
  /\ forall z, In z (y :: ys) -> z <= fold_right Z.max y ys.
Proof.
  induction ys as [|a r [IH1 IH2]]; simpl.
  - split; [now left|]. intros z [<-|[]]. lia.
  - split.
    + destruct (Z.max_spec a (fold_right Z.max y r)) as [[_ ->]|[_ ->]].
      * destruct IH1 as [H|H]; [now left|right; now right].
      * right. now left.
    + intros z [<-|[<-|H]].
      * specialize (IH2 y (or_introl eq_refl)). lia.
      * lia.
      * specialize (IH2 z (or_intror H)). lia.
Qed.

Lemma range_In (lo hi y : Z) : In y (range lo hi) <-> lo <= y < hi.
Proof.
  unfold range. rewrite in_map_iff. split.
  - intros [i [<- Hi]]. apply in_seq in Hi. lia.
  - intros H. exists (Z.to_nat (y - lo)). split; [lia|].
    apply in_seq. lia.
Qed.

Lemma range_sorted (lo hi : Z) : StronglySorted Z.lt (range lo hi).
Proof.
  unfold range. generalize (Z.to_nat (hi - lo)) as n. generalize 0%nat as k.
  intros k n. revert k. induction n as [|n IH]; intros k; simpl;
    [constructor|].
  constructor; [apply IH|].
  apply Forall_forall. intros z Hz. apply in_map_iff in Hz as [i [<- Hi]].
  apply in_seq in Hi. lia.
Qed.

End LayoutFacts.

Section LayoutClaims.
Context {G : Type}.
Import Layout.
Implicit Types (df : list (joined G)) (c : controls).

Lemma NoDup_map_Text (l : list string) : NoDup l -> NoDup (map Text l).
Proof.
  induction 1 as [|x r Hn Hd IH]; simpl; constructor; [|exact IH].
  intros H. apply in_map_iff in H as [y [[= ->] Hy]]. contradiction.
Qed.

Lemma sorted_Built (vs opts : list value) :
  NoDup vs -> sorted vs = Built opts ->
  (forall v, In v opts <-> In v vs)
  /\ NoDup opts
  /\ (opts = [Null]
      \/ exists names, opts = map Text names
           /\ StronglySorted (klt String.compare) names).
Proof.
  intros Hd. unfold sorted. destruct (has_null vs) eqn:E.
  - destruct vs as [|x [|y r]]; try discriminate.
    intros [= <-]. split; [tauto|]. split; [exact Hd|]. left.
    apply has_null_iff in E. destruct E as [->|[]]. reflexivity.
  - intros [= <-].
    pose proof (sort_strings_strict _ (texts_NoDup _ Hd)) as Hs.
    split; [|split].
    + intros v. rewrite in_map_iff. split.
      * intros [s [<- Hs']]. now apply texts_In, sort_strings_In.
      * intros Hv. destruct v as [|s].
        -- apply has_null_iff in Hv. congruence.
        -- exists s. split; [reflexivity|].
           now apply sort_strings_In, texts_In.
    + apply NoDup_map_Text.
      apply (sorted_NoDup String.compare string_cmp_eq). exact Hs.
    + right. eauto.
Qed.

Lemma filter_controls_Built df c :
  filter_controls df = Built c ->
  exists first rest lo hi,
    df = first :: rest
    /\ sorted (unique (map District df)) = Built (options c)
    /\ dropdown_value c = District first
    /\ slider_min c = lo /\ slider_max c = hi
    /\ slider_value c = [lo; hi]
    /\ marks c = range lo (hi + 1)
    /\ min_year df = Some lo /\ max_year df = Some hi.
Proof.
  unfold filter_controls, andThen.
  destruct (sorted (unique (map District df))) as [opts|e]; [|discriminate].
  destruct df as [|first rest]; [discriminate|].
  destruct (unique_head (District first) (map District rest)) as [tl Hu].
  change (map District (first :: rest))
    with (District first :: map District rest).
  rewrite Hu. unfold min_year, max_year. simpl.
  intros [= <-]. exists first, rest. do 2 eexists. simpl.
  repeat split; reflexivity.
Qed.

Lemma year_slider_spans_the_table_aux df c :
  filter_controls df = Built c ->
  slider_value c = [slider_min c; slider_max c]
  /\ forall r, In r df -> slider_min c <= Year r <= slider_max c.
Proof.
  intros H. apply filter_controls_Built in H
    as (first & rest & lo & hi & -> & _ & _ & -> & -> & Hv & Hm & Hlo & Hhi).
  unfold min_year, max_year in *. simpl in Hlo, Hhi.
  injection Hlo as <-. injection Hhi as <-.
  destruct (fold_min_spec (Year first) (map Year rest)) as [_ Hml].
  destruct (fold_max_spec (Year first) (map Year rest)) as [_ Hxl].
  change (Year first :: map Year rest) with (map Year (first :: rest)) in *.
  split; [exact Hv|].
  intros r Hr. split; [apply Hml|apply Hxl]; now apply in_map.
Qed.

Lemma dropdown_options_aux df c :
  filter_controls df = Built c ->
  exists first rest,
    df = first :: rest
    /\ dropdown_value c = District first
    /\ In (dropdown_value c) (options c).
Proof.
  intros H. apply filter_controls_Built in H
    as (first & rest & lo & hi & -> & Hs & Hd & _).
  exists first, rest. split; [reflexivity|]. split; [exact Hd|].
  destruct (sorted_Built _ _ (unique_from_NoDup [] _) Hs) as [Hin _].
  apply Hin, unique_In. rewrite Hd. now left.
Qed.

(** X7: the dropdown offers exactly the districts of the table, each once; the
    names are in increasing order (or the only option is the missing
    district, when no row has a district name). *)
Theorem dropdown_options_are_the_districts df c :
  filter_controls df = Built c ->
  (forall v, In v (options c) <-> exists r, In r df /\ District r = v)
  /\ NoDup (options c)
  /\ (options c = [Null]
      \/ exists names, options c = map Text names
           /\ StronglySorted (klt String.compare) names).
Proof.
  intros H. apply filter_controls_Built in H
    as (first & rest & lo & hi & _ & Hs & _).
  destruct (sorted_Built _ _ (unique_from_NoDup [] _) Hs) as [Hin [Hd Ho]].
  split; [|split; assumption].
  intros v. rewrite Hin, unique_In, in_map_iff. split.
  - intros [r [<- Hr]]. eauto.
  - intros [r [Hr <-]]. eauto.
Qed.

(** X8: the slider spans the years of the table: its ends are years of rows,
    every row's year lies between them, it starts at the full span, and the
    marks are the years from the first to the last, each once and in
    order. *)
Theorem year_slider_spans_the_table df c :
  filter_controls df = Built c ->
  (exists r, In r df /\ Year r = slider_min c)
  /\ (exists r, In r df /\ Year r = slider_max c)
  /\ (forall r, In r df -> slider_min c <= Year r <= slider_max c)
  /\ slider_value c = [slider_min c; slider_max c]
  /\ (forall y, In y (marks c) <-> slider_min c <= y <= slider_max c)
  /\ StronglySorted Z.lt (marks c).
Proof.
  intros H. apply filter_controls_Built in H
    as (first & rest & lo & hi & -> & _ & _ & -> & -> & Hv & Hm & Hlo & Hhi).
  unfold min_year, max_year in *. simpl in Hlo, Hhi.
  injection Hlo as <-. injection Hhi as <-.
  destruct (fold_min_spec (Year first) (map Year rest)) as [Hmi Hml].
  destruct (fold_max_spec (Year first) (map Year rest)) as [Hxi Hxl].
  change (Year first :: map Year rest) with (map Year (first :: rest)) in *.
  split; [|split; [|split; [|split; [|split]]]].
  - apply in_map_iff in Hmi as [r [E Hr]]. eauto.
  - apply in_map_iff in Hxi as [r [E Hr]]. eauto.
  - intros r Hr. split; [apply Hml|apply Hxl]; now apply in_map.
  - exact Hv.
  - intros y. rewrite Hm, range_In. lia.
  - rewrite Hm. apply range_sorted.
Qed.


End LayoutClaims.

Lemma dropdown_options_are_the_districts_witness :
  exists c,
    Layout.filter_controls (Scenario.alpha_table 2024 7%nat) = Layout.Built c
    /\ NoDup (Layout.options c).
Proof.
  eexists. split; [reflexivity|].
  exact (proj1 (proj2 (dropdown_options_are_the_districts
                         (Scenario.alpha_table 2024 7%nat) _ eq_refl))).
Defined.

Lemma year_slider_spans_the_table_witness :
  exists c,
    Layout.filter_controls (Scenario.alpha_table 2024 7%nat) = Layout.Built c
    /\ Layout.slider_value c = [Layout.slider_min c; Layout.slider_max c].
Proof.
  eexists. split; [reflexivity|].
  exact (proj1 (proj2 (proj2 (proj2
           (year_slider_spans_the_table
              (Scenario.alpha_table 2024 7%nat) _ eq_refl))))).
Defined.

(** ** The callback on the controls' defaults *)

Section InitialView.
Context {G : Type} (centroid : G -> Q * Q).
Import Layout.

Lemma select_all_years (df : list (joined G)) (d : value) (lo hi : Z) :
  (forall r, In r df -> lo <= Year r <= hi) ->
  select df d lo hi = filter (fun r => value_eqb (District r) d) df.
Proof.
  intros H. unfold select. apply filter_ext_in. intros r Hr.
  unfold mask. specialize (H r Hr).
  replace (lo <=? Year r) with true by (symmetry; apply Z.leb_le; lia).
  replace (Year r <=? hi) with true by (symmetry; apply Z.leb_le; lia).
  now rewrite !andb_true_r.
Qed.

(** X10: with the dropdown and the slider at their initial values the callback
    selects every row of the first row's district, whatever its year, so
    the first view is not empty; when the first row has no district name
    the first view is empty. *)
Theorem initial_view_is_first_district (df : list (joined G)) (c : controls)
    (out : response G) :
  filter_controls df = Built c ->
  update_dashboard_body centroid df (dropdown_value c) (slider_value c)
    = Ok out ->
  (exists first rest, df = first :: rest /\ dropdown_value c = District first)
  /\ In (dropdown_value c) (options c)
  /\ geojson_features out
     = map geometry
         (filter (fun r => value_eqb (District r) (dropdown_value c)) df)
  /\ (dropdown_value c <> Null -> geojson_features out <> [])
  /\ (dropdown_value c = Null ->
      geojson_features out = [] /\ table_data out = []).
Proof.
  intros Hc Hok.
  destruct (year_slider_spans_the_table_aux df c Hc) as [Hv Hy].
  destruct (dropdown_options_aux df c Hc) as (first & rest & -> & Hd & Hin).
  rewrite Hv in Hok.
  apply body_Ok_inv in Hok
    as (lo & hi & tl & ms & [= <- <- <-] & _ & Ht & Hg & _).
  rewrite (select_all_years _ _ _ _ Hy) in Hg, Ht.
  split; [eauto|]. split; [exact Hin|]. split; [exact Hg|]. split.
  - intros Hne. rewrite Hg, Hd. simpl.
    destruct (District first) as [|s] eqn:E;
      [rewrite Hd in Hne; now contradiction Hne|].
    simpl. rewrite String.eqb_refl. discriminate.
  - intros E. rewrite Hg, Ht, E.
    assert (En : filter (fun r : joined G => value_eqb (District r) Null)
                        (first :: rest) = []).
    { clear. induction (first :: rest) as [|r l IH]; simpl; [reflexivity|].
      destruct (District r); simpl; exact IH. }
    rewrite En. split; reflexivity.
Qed.

End InitialView.

Lemma initial_view_is_first_district_witness :
  exists c out,
    Layout.filter_controls (Scenario.alpha_table 2024 7%nat) = Layout.Built c
    /\ update_dashboard_body (fun g : nat => (inject_Z (Z.of_nat g), 0%Q))
         (Scenario.alpha_table 2024 7%nat)
         (Layout.dropdown_value c) (Layout.slider_value c) = Ok out
    /\ geojson_features out <> [].
Proof.
  do 2 eexists. split; [reflexivity|]. split; [reflexivity|].
  apply (proj1 (proj2 (proj2 (proj2
           (initial_view_is_first_district
              (fun g : nat => (inject_Z (Z.of_nat g), 0%Q))
              (Scenario.alpha_table 2024 7%nat) _ _ eq_refl eq_refl))))).
  discriminate.
Defined.

(** ** When the callback raises *)

Section EngineErrors.
Context {G : Type} (centroid : G -> Q * Q).
Implicit Types (df dd : list (joined G)) (d : value).

Lemma make_marker_Err dd (row : agg_row) (e : exn) :
  make_marker centroid dd row = Err e <->
  e = AttributeError
  /\ exists r tl, facility_rows dd (row_facility_name row) = r :: tl
       /\ geometry r = None.
Proof.
  unfold make_marker.
  destruct (facility_rows dd (row_facility_name row)) as [|r tl].
  - split; [discriminate|]. intros [_ (r & tl & H & _)]. discriminate.
  - destruct (geometry r) eqn:E.
    + split; [discriminate|]. intros [_ (r' & tl' & [= <- <-] & H)].
      congruence.
    + split.
      * intros [= <-]. split; [reflexivity|]. eauto.
      * intros [-> _]. reflexivity.
Qed.

Lemma make_markers_Err dd (rows : list agg_row) (e : exn) :
  make_markers centroid dd rows = Err e <->
  e = AttributeError
  /\ exists row, In row rows /\ make_marker centroid dd row = Err AttributeError.
Proof.
  induction rows as [|row rest IH]; simpl.
  - split; [discriminate|]. intros [_ [row [[] _]]].
  - destruct (make_marker centroid dd row) as [m|e1] eqn:E1; simpl.
    + destruct (make_markers centroid dd rest) as [ms|e2] eqn:E2; simpl.
      * split; [discriminate|]. intros [-> [row' [[<-|Hin] Hk]]].
        -- congruence.
        -- destruct IH as [_ IH].
           assert (Habs : @Ok (list marker) ms = Err AttributeError)
             by (apply IH; eauto).
           discriminate.
      * split.
        -- intros [= <-]. destruct IH as [IH _].
           destruct (IH eq_refl) as [-> [row' [Hin Hk]]].
           split; [reflexivity|]. exists row'. auto.
        -- intros [-> [row' [[<-|Hin] Hk]]]; [congruence|].
           apply IH. split; [reflexivity|]. eauto.
    + assert (He : e1 = AttributeError)
        by (apply (make_marker_Err dd row e1); exact E1).
      subst e1. split.
      * intros [= <-]. split; [reflexivity|]. exists row. auto.
      * intros [-> _]. reflexivity.
Qed.

Lemma aggregate_has_row dd (name : string) (r : joined G) :
  In r dd -> facility_name r = Text name ->
  exists row, In row (aggregate dd) /\ row_facility_name row = name.
Proof.
  intros Hr Hk.
  assert (Hin : In name (map row_facility_name (aggregate dd))).
  { rewrite aggregate_names. apply sorted_unique_In; [exact string_cmp_eq|].
    apply keys_of_In. exists r. split; [exact Hr|].
    now apply facility_key_Some. }
  apply in_map_iff in Hin as [row [E Hrow]]. eauto.
Qed.

Lemma body_Err_iff df d (year_range : list Z) :
  (update_dashboard_body centroid df d year_range = Err IndexError <->
   (List.length year_range < 2)%nat)
  /\ (update_dashboard_body centroid df d year_range = Err AttributeError <->
      exists lo hi rest name r tl,
        year_range = lo :: hi :: rest
        /\ facility_rows (select df d lo hi) name = r :: tl
        /\ geometry r = None).
Proof.
  unfold update_dashboard_body.
  destruct year_range as [|lo [|hi rest]]; simpl.
  - split; [split; [lia|reflexivity]|].
    split; [discriminate|]. intros (? & ? & ? & ? & ? & ? & H & _).
    discriminate.
  - split; [split; [lia|reflexivity]|].
    split; [discriminate|]. intros (? & ? & ? & ? & ? & ? & H & _).
    discriminate.
  - set (dd := select df d lo hi).
    destruct (make_markers centroid dd (aggregate dd)) as [ms|e] eqn:E; simpl.
    + split; [split; [discriminate|lia]|].
      split; [discriminate|].
      intros (lo' & hi' & rest' & name & r & tl & [= <- <- <-] & Hf & Hg).
      fold dd in Hf.
      assert (Hr : In r (facility_rows dd name)) by (rewrite Hf; now left).
      apply facility_rows_In in Hr as [Hr Hk].
      destruct (aggregate_has_row dd name r Hr Hk) as [row [Hrow <-]].
      assert (Habs : make_markers centroid dd (aggregate dd)
                     = Err AttributeError).
      { apply make_markers_Err. split; [reflexivity|]. exists row.
        split; [exact Hrow|]. apply make_marker_Err.
        split; [reflexivity|]. eauto. }
      congruence.
    + apply make_markers_Err in E as [-> [row [Hrow Hk]]].
      split; [split; [discriminate|lia]|].
      split; [intros _|reflexivity].
      apply make_marker_Err in Hk as [_ (r & tl & Hf & Hg)].
      exists lo, hi, rest, (row_facility_name row), r, tl. auto.
Qed.

(** X11: the callback body raises in two cases only: [IndexError] exactly when
    the year range has fewer than two elements, and [AttributeError]
    exactly when the first selected row of some facility has no geometry. *)
Theorem body_raises_exactly_when df d (year_range : list Z) :
  (update_dashboard_body centroid df d year_range = Err IndexError <->
   (List.length year_range < 2)%nat)
  /\ (update_dashboard_body centroid df d year_range = Err AttributeError <->
      exists lo hi rest name r tl,
        year_range = lo :: hi :: rest
        /\ facility_rows (select df d lo hi) name = r :: tl
        /\ geometry r = None).
Proof. apply body_Err_iff. Qed.

Lemma facility_rows_geometry dd (name : string) (r : joined G)
    (tl : list (joined G)) :
  facility_rows dd name = r :: tl -> In r dd.
Proof.
  intros H. assert (Hr : In r (facility_rows dd name)) by (rewrite H; now left).
  now apply facility_rows_In in Hr as [Hr _].
Qed.

(** X12: when every region has a geometry, the callback body returns normally on
    the joined table for every district and every pair of years. *)
Theorem loaded_table_never_raises (shp : list (region G))
    (csv : list case_report) d (lo hi : Z) :
  (forall a, In a shp -> adm_geometry a <> None) ->
  exists out,
    update_dashboard_body centroid (Loader.load_data shp csv) d [lo; hi]
    = Ok out.
Proof.
  intros Hg.
  destruct (update_dashboard_body centroid (Loader.load_data shp csv) d
              [lo; hi]) as [out|e] eqn:E; [eauto|].
  exfalso. destruct e.
  - apply (proj1 (body_Err_iff _ _ _)) in E. simpl in E. lia.
  - apply (proj2 (body_Err_iff _ _ _)) in E
      as (lo' & hi' & rest & name & r & tl & [= <- <- <-] & Hf & Hn).
    apply facility_rows_geometry, select_In in Hf as [Hr _].
    unfold Loader.load_data in Hr.
    apply merge_In in Hr as (a & c & Ha & _ & _ & ->). simpl in Hn.
    now apply (Hg a Ha).
Qed.

End EngineErrors.

Lemma loaded_table_never_raises_witness :
  exists out,
    update_dashboard_body (fun g : nat => (inject_Z (Z.of_nat g), 0%Q))
      (Loader.load_data (Scenario.alpha_regions 7%nat)
                        (Scenario.alpha_reports 2024))
      (Text "East") [2024; 2024] = Ok out.
Proof.
  apply loaded_table_never_raises.
  intros a [<-|[]]. discriminate.
Defined.

(** ** The outputs of a normal return *)

Section EngineOutputs.
Context {G : Type} (centroid : G -> Q * Q).
Implicit Types (df dd : list (joined G)) (d : value).

Lemma make_markers_rows dd (rows : list agg_row) (ms : list marker) :
  (forall row, In row rows -> facility_rows dd (row_facility_name row) <> []) ->
  make_markers centroid dd rows = Ok ms ->
  Forall2 shows rows ms.
Proof.
  revert ms. induction rows as [|row rest IH]; simpl; intros ms Hne.
  - intros [= <-]. constructor.
  - destruct (make_marker centroid dd row) as [m1|e] eqn:E1; simpl;
      [|discriminate].
    destruct (make_markers centroid dd rest) as [m2|e] eqn:E2; simpl;
      [|discriminate].
    intros [= <-].
    destruct (make_marker_Ok centroid _ _ _ E1)
      as [[_ Hnil]|[m [-> (Hf & Ht & Ha & Hm & _)]]].
    + exfalso. apply (Hne row); [now left|exact Hnil].
    + simpl. constructor; [repeat split; assumption|].
      apply IH; [|reflexivity]. intros row' Hr. apply Hne. now right.
Qed.

Lemma aggregate_rows_nonempty dd (row : agg_row) :
  In row (aggregate dd) -> facility_rows dd (row_facility_name row) <> [].
Proof.
  intros Hrow E. apply aggregate_In in Hrow as [[r [Hr Hk]] _].
  assert (Hin : In r (facility_rows dd (row_facility_name row)))
    by now apply facility_rows_In.
  rewrite E in Hin. destruct Hin.
Qed.


(** X13: on a normal return the rows of the table are in increasing order of
    facility name, and the markers and the bars of the bar chart follow the
    rows one for one, in that order, each with the numbers of its row. *)
Theorem markers_and_bars_follow_rows df d (year_range : list Z)
    (out : response G) :
  update_dashboard_body centroid df d year_range = Ok out ->
  StronglySorted (klt String.compare)
                 (map row_facility_name (table_data out))
  /\ Forall2 shows (table_data out) (marker_layer out)
  /\ exists bar, bar_fig out = Some bar
       /\ bars bar = map (fun row => (row_facility_name row, Total_Cases row))
                         (table_data out).
Proof.
  intros Hok. apply body_Ok_inv in Hok
    as (lo & hi & rest & ms & -> & Hms & Ht & _ & Hm & Hb & _).
  rewrite Ht, Hm. split; [apply aggregate_sorted|]. split.
  - apply (make_markers_rows (select df d lo hi)); [|exact Hms].
    apply aggregate_rows_nonempty.
  - eexists. split; [exact Hb|]. reflexivity.
Qed.

End EngineOutputs.

Lemma markers_and_bars_follow_rows_witness :
  exists out,
    update_dashboard_body (fun g : nat => (inject_Z (Z.of_nat g), 0%Q))
      (Scenario.alpha_table 2024 7%nat) (Text "East") [2024; 2024] = Ok out
    /\ Forall2 shows (table_data out) (marker_layer out).
Proof.
  eexists. split; [reflexivity|].
  exact (proj1 (proj2 (markers_and_bars_follow_rows
                         (fun g : nat => (inject_Z (Z.of_nat g), 0%Q))
                         (Scenario.alpha_table 2024 7%nat) (Text "East")
                         [2024; 2024] _ eq_refl))).
Defined.

(** ** Sums over groups *)

Section GroupSums.
Context {K R : Type} (cmp : K -> K -> comparison).
Hypothesis cmp_eq : forall a b, cmp a b = Eq <-> a = b.
Variable key : R -> option K.
Variable f : R -> Z.

Lemma has_key_sum_none (r : R) (ks : list K) :
  (forall k, In k ks -> key r <> Some k) ->
  zsum (map (fun k => if has_key cmp key k r then f r else 0) ks) = 0.
Proof.
  induction ks as [|h t IH]; simpl; [reflexivity|]. intros H.
  destruct (has_key cmp key h r) eqn:E.
  - apply (has_key_iff cmp cmp_eq) in E. exfalso.
    apply (H h); [now left|exact E].
  - rewrite IH; [reflexivity|]. intros k Hk. apply H. now right.
Qed.

Lemma has_key_sum_one (r : R) (k0 : K) (ks : list K) :
  NoDup ks -> In k0 ks -> key r = Some k0 ->
  zsum (map (fun k => if has_key cmp key k r then f r else 0) ks) = f r.
Proof.
  induction 1 as [|h t Hn Hd IH]; simpl; [intros []|].
  intros [->|Hin] Hk.
  - assert (E : has_key cmp key k0 r = true)
      by now apply (has_key_iff cmp cmp_eq).
    rewrite E, has_key_sum_none; [lia|].
    intros k Hkt E'. rewrite Hk in E'. injection E' as ->. contradiction.
  - destruct (has_key cmp key h r) eqn:E.
    + apply (has_key_iff cmp cmp_eq) in E. rewrite Hk in E.
      injection E as ->. contradiction.
    + rewrite (IH Hin Hk). lia.
Qed.

Lemma group_sums (rows : list R) (ks : list K) :
  NoDup ks ->
  (forall r k, In r rows -> key r = Some k -> In k ks) ->
  zsum (map (fun k => zsum (map f (filter (has_key cmp key k) rows))) ks)
  = zsum (map (fun r => match key r with Some _ => f r | None => 0 end) rows).
Proof.
  intros Hd. induction rows as [|r rest IH]; intros Hin.
  - simpl. clear. induction ks as [|h t IHk]; simpl; [reflexivity|exact IHk].
  - transitivity
      (zsum (map (fun k => (if has_key cmp key k r then f r else 0)
                           + zsum (map f (filter (has_key cmp key k) rest)))
                 ks)).
    + f_equal. apply map_ext. intros k. simpl.
      destruct (has_key cmp key k r); reflexivity.
    + rewrite (zsum_add (fun k => if has_key cmp key k r then f r else 0)).
      rewrite IH by (intros r' k Hr; apply Hin; now right).
      simpl. f_equal.
      destruct (key r) as [k0|] eqn:Ek.
      * apply (has_key_sum_one r k0); auto. apply (Hin r); auto. now left.
      * apply has_key_sum_none. intros k _. congruence.
Qed.

Lemma groupby_sums (rows : list R) :
  (forall a b, cmp a b = CompOpp (cmp b a)) ->
  (forall a b c, cmp a b = Lt -> cmp b c = Lt -> cmp a c = Lt) ->
  zsum (map (fun kg : K * list R => zsum (map f (snd kg)))
            (groupby cmp key rows))
  = zsum (map (fun r => match key r with Some _ => f r | None => 0 end) rows).
Proof.
  intros Ha Ht. unfold groupby. rewrite map_map. simpl.
  apply group_sums.
  - apply (sorted_NoDup cmp cmp_eq), sorted_unique_sorted; assumption.
  - intros r k Hr Hk. apply (sorted_unique_In cmp cmp_eq), keys_of_In. eauto.
Qed.

End GroupSums.

Section Conservation.
Context {G : Type} (centroid : G -> Q * Q).
Implicit Types (df dd : list (joined G)) (d : value).

Lemma agg_sum_counted dd : agg_sum (cases_of dd) = zsum (map counted dd).
Proof.
  unfold agg_sum, cases_of, counted.
  induction dd as [|r rest IH]; simpl; [reflexivity|].
  destruct (Malaria_cases_OPD r); simpl; now rewrite IH.
Qed.

Lemma monthly_sums dd :
  zsum (map snd (monthly dd)) = agg_sum (cases_of dd).
Proof.
  unfold monthly. rewrite map_map. simpl.
  rewrite agg_sum_counted.
  transitivity (zsum (map (fun r : joined G =>
                             match month_key r with
                             | Some _ => counted r
                             | None => 0
                             end) dd)); [|reflexivity].
  rewrite <- (groupby_sums cmp_ym cmp_ym_eq month_key counted dd
                cmp_ym_antisym cmp_ym_trans).
  f_equal. apply map_ext. intros kg. apply agg_sum_counted.
Qed.

Lemma facility_sums dd :
  zsum (map (fun kg : string * list (joined G) => agg_sum (cases_of (snd kg)))
            (groupby String.compare facility_key dd))
  = agg_sum (cases_of (filter named dd)).
Proof.
  rewrite agg_sum_counted.
  transitivity (zsum (map (fun r : joined G =>
                             match facility_key r with
                             | Some _ => counted r
                             | None => 0
                             end) dd)).
  - rewrite <- (groupby_sums String.compare string_cmp_eq facility_key
                  counted dd String.compare_antisym string_cmp_trans).
    f_equal. apply map_ext. intros kg. apply agg_sum_counted.
  - unfold facility_key, named. induction dd as [|r rest IH]; simpl;
      [reflexivity|].
    destruct (facility_name r); simpl; rewrite IH; reflexivity.
Qed.

Lemma aggregate_totals dd :
  map Total_Cases (aggregate dd)
  = map of_Z (map (fun kg : string * list (joined G) =>
                     agg_sum (cases_of (snd kg)))
                  (groupby String.compare facility_key dd)).
Proof.
  unfold aggregate. rewrite !map_map. apply map_ext. intros kg.
  unfold round_row. cbn [Total_Cases]. apply round2_of_Z.
Qed.

Lemma filter_named_all dd :
  (forall r, In r dd -> facility_name r <> Null) -> filter named dd = dd.
Proof.
  intros H. induction dd as [|r rest IH]; simpl; [reflexivity|].
  unfold named at 1. destruct (facility_name r) eqn:E.
  - exfalso. apply (H r); [now left|exact E].
  - f_equal. apply IH. intros r' Hr. apply H. now right.
Qed.



End Conservation.



(** ** Colours, year ranges and the cleared dropdown *)

Section EngineMore.
Context {G : Type} (centroid : G -> Q * Q).
Implicit Types (df dd fd : list (joined G)) (d : value).

Lemma fge0_growth_expr (l p : Z) :
  0 < p -> fge0 (growth_expr l p) = (p <=? l).
Proof.
  intros Hp. unfold growth_expr.
  replace (p =? 0) with false by (symmetry; apply Z.eqb_neq; lia).
  cbn [negb].
  destruct (percent_change p l) as [q [Hq E]]; [lia|].
  rewrite Hq. unfold fge0.
  destruct p as [|pp|pp]; try lia.
  unfold Qeq in E. simpl in E.
  destruct (Z.leb_spec 0 (Qnum q)), (Z.leb_spec (Z.pos pp) l);
    try reflexivity; exfalso; nia.
Qed.

Lemma growth_color_cases (g : fnum) :
  (growth_color g = Green <-> fge0 g = true)
  /\ (growth_color g = Red <-> fge0 g = false).
Proof.
  unfold growth_color. destruct (fge0 g); split; split; congruence.
Qed.

(** X16: with case counts that are not negative, a marker is red exactly when
    the last monthly total of the facility is below a positive total of the
    month before; it is green when the last total is at least the previous
    one, when the previous total is zero, and when the facility has fewer
    than two monthly buckets. *)
Theorem marker_colour_meaning fd :
  ((List.length (monthly fd) < 2)%nat ->
   growth_color (mom_growth fd) = Green)
  /\ (forall pre k2 p k1 l,
        monthly fd = (pre ++ [(k2, p); (k1, l)])%list ->
        0 <= p ->
        (growth_color (mom_growth fd) = Red <-> 0 < p /\ l < p)
        /\ (growth_color (mom_growth fd) = Green <-> p = 0 \/ p <= l)).
Proof.
  split.
  - intros H. now rewrite (mom_growth_few fd H).
  - intros pre k2 p k1 l E Hp. rewrite (mom_growth_two fd pre _ _ E). simpl.
    destruct (growth_color_cases (growth_expr l p)) as [Hg Hr].
    rewrite Hg, Hr.
    destruct (Z.eq_dec p 0) as [->|Hne].
    + change (growth_expr l 0) with (of_Z 0). simpl.
      split; split; try discriminate; try lia; auto.
    + rewrite fge0_growth_expr by lia.
      rewrite Z.leb_gt, Z.leb_le. split; split; lia.
Qed.

Lemma mask_split d (lo mid hi : Z) (r : joined G) :
  lo - 1 <= mid <= hi ->
  (mask d lo hi r = true ->
   mask d lo mid r = negb (mask d (mid + 1) hi r))
  /\ (mask d lo hi r = false ->
      mask d lo mid r = false /\ mask d (mid + 1) hi r = false).
Proof.
  intros H. unfold mask.
  destruct (value_eqb (District r) d); simpl; [|split; [discriminate|auto]].
  destruct (Z.leb_spec lo (Year r)), (Z.leb_spec (Year r) hi),
    (Z.leb_spec (Year r) mid), (Z.leb_spec (mid + 1) (Year r));
    simpl; split; try discriminate; auto; try lia.
Qed.


(** X18: with the dropdown cleared the callback selects no row, not even a row
    without a district, and returns normally with an empty view. *)
Theorem cleared_dropdown_selects_nothing df (lo hi : Z) :
  select df Null lo hi = []
  /\ exists out,
       update_dashboard_body centroid df Null [lo; hi] = Ok out
       /\ table_data out = []
       /\ geojson_features out = []
       /\ marker_layer out = [].
Proof.
  assert (E : select df Null lo hi = []).
  { unfold select. induction df as [|r rest IH]; simpl; [reflexivity|].
    unfold mask at 1. destruct (District r); simpl; exact IH. }
  split; [exact E|]. eexists.
  rewrite (body_no_rows centroid df Null lo hi E). repeat split.
Qed.

(** X19: the callback answers with the empty response exactly when its body
    raised: a normal return always names the four table columns. *)
Theorem empty_response_only_on_error df d (year_range : list Z) :
  (update_dashboard centroid df d year_range = empty_response <->
   exists e, update_dashboard_body centroid df d year_range = Err e)
  /\ (table_columns (update_dashboard centroid df d year_range) = [] <->
      exists e, update_dashboard_body centroid df d year_range = Err e).
Proof.
  unfold update_dashboard.
  destruct (update_dashboard_body centroid df d year_range) as [out|e] eqn:E.
  - assert (Hc : table_columns out = columns).
    { revert E. unfold update_dashboard_body.
      destruct year_range as [|lo [|hi rest]]; simpl; try discriminate.
      destruct (make_markers centroid _ _); simpl; [|discriminate].
      now intros [= <-]. }
    split; split.
    + intros ->. discriminate Hc.
    + intros [e He]. discriminate.
    + rewrite Hc. discriminate.
    + intros [e He]. discriminate.
  - split; split; eauto.
Qed.

End EngineMore.

Lemma marker_colour_meaning_witness :
  growth_color (mom_growth (Scenario.alpha_table 2024 7%nat)) = Green.
Proof.
  apply (proj2 (marker_colour_meaning (Scenario.alpha_table 2024 7%nat))
               [] (2024, 1) 10 (2024, 2) 20 eq_refl); lia.
Defined.

